(** * Parallel-replica plan splitting: test 02967 and the splitter's design

    The development has two parts.

    - [Reference] transcribes the expected output of the stateless test
      [02967_parallel_replicas_joins_and_analyzer]: for each query of the
      suite and each value of [parallel_replicas_prefer_local_join], the
      result rows and the [explain description=0] plan, line by line.  The
      plans are parsed from their indentation into trees, and the fan-out
      structure (the [Union] of a local branch and a
      [ReadFromRemoteParallelReplicas] branch) is read off the trees.

    - The rest models the Cut-Point Analyzer, the Plan Rewriter and the
      IN-subquery materialization policy.  Their implementation is not among
      the sources, so these definitions follow the design document; each one
      says so in its comment.  An execution semantics for plans makes the
      refinement statements (partial/merge aggregation, local/merge sorting,
      fan-out of a replica subplan) precise. *)

From Stdlib Require Import ZArith Ascii.
From stdpp Require Import gmap strings list sorting.

Local Open Scope Z_scope.
Set Warnings "-register-all".

(** ** Expected output of test 02967 *)

Module Reference.

(** The queries of the suite, in the order of the reference file.  Each is
    run once with [parallel_replicas_prefer_local_join = 0] (first half of
    the file) and once with [= 1] (second half). *)
Inductive Query :=
| SimpleJoins     (* only INNER/LEFT joins, written with subqueries *)
| CteJoins        (* the same query with CTEs, ORDER BY x *)
| GroupBy         (* GROUP BY in sub5 *)
| OrderBySub3     (* ORDER BY in sub3 *)
| OrderBySub1     (* ORDER BY in sub1 *)
| RightJoinSub3   (* RIGHT JOIN in sub3 *)
| RightJoinSub5   (* RIGHT JOIN in sub5 *)
| InAllowed       (* IN subquery, parallel_replicas_allow_in_with_subquery default *)
| InDenied.       (* IN subquery, parallel_replicas_allow_in_with_subquery = 0 *)

(** Lines 6-20 of the reference. *)
Definition rows_0_simple_joins : list (list Z) :=
  [[0; 0; 0; 0; 0; 0]; [1; 1; 0; 0; 0; 0]; [3; 3; 0; 0; 0; 0];
   [4; 4; 0; 0; 0; 0]; [5; 5; 0; 0; 0; 0]; [6; 6; 6; 6; 0; 0];
   [7; 7; 0; 0; 0; 0]; [8; 8; 8; 8; 0; 0]; [9; 9; 0; 0; 0; 0];
   [10; 10; 10; 10; 0; 0]; [11; 11; 0; 0; 0; 0]; [12; 12; 12; 12; 12; 12];
   [13; 13; 0; 0; 0; 0]; [14; 14; 14; 14; 0; 0]; [15; 15; 0; 0; 0; 0]].

(** Lines 22-37 of the reference. *)
Definition explain_0_simple_joins : list string :=
  ["Union";
   "  Expression";
   "    Expression";
   "      Join";
   "        Expression";
   "          Expression";
   "            Join";
   "              Expression";
   "                Expression";
   "                  ReadFromMergeTree";
   "              Expression";
   "                ReadFromMemoryStorage";
   "        Expression";
   "          ReadFromMemoryStorage";
   "  Expression";
   "    ReadFromRemoteParallelReplicas"].

(** Lines 46-60 of the reference. *)
Definition rows_0_cte_joins : list (list Z) :=
  [[0; 0; 0; 0; 0; 0]; [1; 1; 0; 0; 0; 0]; [3; 3; 0; 0; 0; 0];
   [4; 4; 0; 0; 0; 0]; [5; 5; 0; 0; 0; 0]; [6; 6; 6; 6; 0; 0];
   [7; 7; 0; 0; 0; 0]; [8; 8; 8; 8; 0; 0]; [9; 9; 0; 0; 0; 0];
   [10; 10; 10; 10; 0; 0]; [11; 11; 0; 0; 0; 0]; [12; 12; 12; 12; 12; 12];
   [13; 13; 0; 0; 0; 0]; [14; 14; 14; 14; 0; 0]; [15; 15; 0; 0; 0; 0]].

(** Lines 68-87 of the reference. *)
Definition explain_0_cte_joins : list string :=
  ["Expression";
   "  Sorting";
   "    Union";
   "      Expression";
   "        Sorting";
   "          Expression";
   "            Expression";
   "              Join";
   "                Expression";
   "                  Expression";
   "                    Join";
   "                      Expression";
   "                        Expression";
   "                          ReadFromMergeTree";
   "                      Expression";
   "                        ReadFromMemoryStorage";
   "                Expression";
   "                  ReadFromMemoryStorage";
   "      Expression";
   "        ReadFromRemoteParallelReplicas"].

(** Lines 96-97 of the reference. *)
Definition rows_0_group_by : list (list Z) :=
  [[54; 54; 50; 50; 12; 12; 0]; [64; 64; 0; 0; 0; 0; 1]].

(** Lines 105-126 of the reference. *)
Definition explain_0_group_by : list string :=
  ["Expression";
   "  Sorting";
   "    Expression";
   "      MergingAggregated";
   "        Union";
   "          Expression";
   "            Aggregating";
   "              Expression";
   "                Expression";
   "                  Join";
   "                    Expression";
   "                      Expression";
   "                        Join";
   "                          Expression";
   "                            Expression";
   "                              ReadFromMergeTree";
   "                          Expression";
   "                            ReadFromMemoryStorage";
   "                    Expression";
   "                      ReadFromMemoryStorage";
   "          Expression";
   "            ReadFromRemoteParallelReplicas"].

(** Lines 135-149 of the reference. *)
Definition rows_0_order_by_sub3 : list (list Z) :=
  [[0; 0; 0; 0; 0; 0]; [1; 1; 0; 0; 0; 0]; [3; 3; 0; 0; 0; 0];
   [4; 4; 0; 0; 0; 0]; [5; 5; 0; 0; 0; 0]; [6; 6; 6; 6; 0; 0];
   [7; 7; 0; 0; 0; 0]; [8; 8; 8; 8; 0; 0]; [9; 9; 0; 0; 0; 0];
   [10; 10; 10; 10; 0; 0]; [11; 11; 0; 0; 0; 0]; [12; 12; 12; 12; 12; 12];
   [13; 13; 0; 0; 0; 0]; [14; 14; 14; 14; 0; 0]; [15; 15; 0; 0; 0; 0]].

(** Lines 157-179 of the reference. *)
Definition explain_0_order_by_sub3 : list string :=
  ["Expression";
   "  Sorting";
   "    Expression";
   "      Expression";
   "        Join";
   "          Union";
   "            Expression";
   "              Expression";
   "                Expression";
   "                  Join";
   "                    Expression";
   "                      Expression";
   "                        ReadFromMergeTree";
   "                    Expression";
   "                      ReadFromMemoryStorage";
   "            Expression";
   "              ReadFromRemoteParallelReplicas";
   "          Union";
   "            Expression";
   "              Expression";
   "                ReadFromMergeTree";
   "            Expression";
   "              ReadFromRemoteParallelReplicas"].

(** Lines 188-202 of the reference. *)
Definition rows_0_order_by_sub1 : list (list Z) :=
  [[0; 0; 0; 0; 0; 0]; [1; 1; 0; 0; 0; 0]; [3; 3; 0; 0; 0; 0];
   [4; 4; 0; 0; 0; 0]; [5; 5; 0; 0; 0; 0]; [6; 6; 6; 6; 0; 0];
   [7; 7; 0; 0; 0; 0]; [8; 8; 8; 8; 0; 0]; [9; 9; 0; 0; 0; 0];
   [10; 10; 10; 10; 0; 0]; [11; 11; 0; 0; 0; 0]; [12; 12; 12; 12; 12; 12];
   [13; 13; 0; 0; 0; 0]; [14; 14; 14; 14; 0; 0]; [15; 15; 0; 0; 0; 0]].

(** Lines 210-236 of the reference. *)
Definition explain_0_order_by_sub1 : list string :=
  ["Expression";
   "  Sorting";
   "    Expression";
   "      Expression";
   "        Join";
   "          Expression";
   "            Expression";
   "              Join";
   "                Union";
   "                  Expression";
   "                    Expression";
   "                      Expression";
   "                        ReadFromMergeTree";
   "                  Expression";
   "                    ReadFromRemoteParallelReplicas";
   "                Union";
   "                  Expression";
   "                    Expression";
   "                      ReadFromMergeTree";
   "                  Expression";
   "                    ReadFromRemoteParallelReplicas";
   "          Union";
   "            Expression";
   "              Expression";
   "                ReadFromMergeTree";
   "            Expression";
   "              ReadFromRemoteParallelReplicas"].

(** Lines 245-259 of the reference. *)
Definition rows_0_right_join_sub3 : list (list Z) :=
  [[0; 0; 0; 0; 0; 0]; [1; 1; 0; 0; 0; 0]; [3; 3; 0; 0; 0; 0];
   [4; 4; 0; 0; 0; 0]; [5; 5; 0; 0; 0; 0]; [6; 6; 6; 6; 0; 0];
   [7; 7; 0; 0; 0; 0]; [8; 8; 8; 8; 0; 0]; [9; 9; 0; 0; 0; 0];
   [10; 10; 10; 10; 0; 0]; [11; 11; 0; 0; 0; 0]; [12; 12; 12; 12; 12; 12];
   [13; 13; 0; 0; 0; 0]; [14; 14; 14; 14; 0; 0]; [15; 15; 0; 0; 0; 0]].

(** Lines 267-282 of the reference. *)
Definition explain_0_right_join_sub3 : list string :=
  ["Union";
   "  Expression";
   "    Expression";
   "      Join";
   "        Expression";
   "          Expression";
   "            Join";
   "              Expression";
   "                ReadFromMemoryStorage";
   "              Expression";
   "                Expression";
   "                  ReadFromMergeTree";
   "        Expression";
   "          ReadFromMemoryStorage";
   "  Expression";
   "    ReadFromRemoteParallelReplicas"].

(** Lines 291-305 of the reference. *)
Definition rows_0_right_join_sub5 : list (list Z) :=
  [[0; 0; 0; 0; 0; 0]; [0; 0; 1; 1; 0; 0]; [0; 0; 3; 3; 0; 0];
   [0; 0; 4; 4; 0; 0]; [0; 0; 5; 5; 0; 0]; [0; 0; 6; 6; 6; 6];
   [0; 0; 7; 7; 0; 0]; [0; 0; 8; 8; 8; 8]; [0; 0; 9; 9; 0; 0];
   [0; 0; 10; 10; 10; 10]; [0; 0; 11; 11; 0; 0]; [12; 12; 12; 12; 12; 12];
   [0; 0; 13; 13; 0; 0]; [0; 0; 14; 14; 14; 14]; [0; 0; 15; 15; 0; 0]].

(** Lines 313-333 of the reference. *)
Definition explain_0_right_join_sub5 : list string :=
  ["Expression";
   "  Sorting";
   "    Union";
   "      Expression";
   "        Sorting";
   "          Expression";
   "            Expression";
   "              Join";
   "                Expression";
   "                  ReadFromMemoryStorage";
   "                Expression";
   "                  Expression";
   "                    Join";
   "                      Expression";
   "                        Expression";
   "                          ReadFromMergeTree";
   "                      Expression";
   "                        Expression";
   "                          ReadFromMergeTree";
   "      Expression";
   "        ReadFromRemoteParallelReplicas"].

(** Lines 342-356 of the reference. *)
Definition rows_0_in_allowed : list (list Z) :=
  [[0; 0; 0; 0; 0; 0]; [1; 1; 0; 0; 0; 0]; [3; 3; 0; 0; 0; 0];
   [4; 4; 0; 0; 0; 0]; [5; 5; 0; 0; 0; 0]; [6; 6; 6; 6; 0; 0];
   [7; 7; 0; 0; 0; 0]; [8; 8; 8; 8; 0; 0]; [9; 9; 0; 0; 0; 0];
   [10; 10; 10; 10; 0; 0]; [11; 11; 0; 0; 0; 0]; [12; 12; 12; 12; 12; 12];
   [13; 13; 0; 0; 0; 0]; [14; 14; 14; 14; 0; 0]; [15; 15; 0; 0; 0; 0]].

(** Lines 364-389 of the reference. *)
Definition explain_0_in_allowed : list string :=
  ["Expression";
   "  Sorting";
   "    Union";
   "      Expression";
   "        Sorting";
   "          Expression";
   "            Expression";
   "              Join";
   "                Expression";
   "                  Expression";
   "                    Join";
   "                      Expression";
   "                        CreatingSets";
   "                          Expression";
   "                            Expression";
   "                              ReadFromMergeTree";
   "                          CreatingSet";
   "                            Expression";
   "                              Filter";
   "                                ReadFromSystemNumbers";
   "                      Expression";
   "                        ReadFromMemoryStorage";
   "                Expression";
   "                  ReadFromMemoryStorage";
   "      Expression";
   "        ReadFromRemoteParallelReplicas"].

(** Lines 399-413 of the reference. *)
Definition rows_0_in_denied : list (list Z) :=
  [[0; 0; 0; 0; 0; 0]; [1; 1; 0; 0; 0; 0]; [3; 3; 0; 0; 0; 0];
   [4; 4; 0; 0; 0; 0]; [5; 5; 0; 0; 0; 0]; [6; 6; 6; 6; 0; 0];
   [7; 7; 0; 0; 0; 0]; [8; 8; 8; 8; 0; 0]; [9; 9; 0; 0; 0; 0];
   [10; 10; 10; 10; 0; 0]; [11; 11; 0; 0; 0; 0]; [12; 12; 12; 12; 12; 12];
   [13; 13; 0; 0; 0; 0]; [14; 14; 14; 14; 0; 0]; [15; 15; 0; 0; 0; 0]].

(** Lines 422-450 of the reference. *)
Definition explain_0_in_denied : list string :=
  ["Expression";
   "  Sorting";
   "    Expression";
   "      Expression";
   "        Join";
   "          Expression";
   "            Expression";
   "              Join";
   "                Expression";
   "                  CreatingSets";
   "                    Expression";
   "                      Expression";
   "                        ReadFromMergeTree";
   "                    CreatingSet";
   "                      Expression";
   "                        Filter";
   "                          ReadFromSystemNumbers";
   "                Union";
   "                  Expression";
   "                    Expression";
   "                      ReadFromMergeTree";
   "                  Expression";
   "                    ReadFromRemoteParallelReplicas";
   "          Union";
   "            Expression";
   "              Expression";
   "                ReadFromMergeTree";
   "            Expression";
   "              ReadFromRemoteParallelReplicas"].

(** Lines 454-468 of the reference. *)
Definition rows_1_simple_joins : list (list Z) :=
  [[0; 0; 0; 0; 0; 0]; [1; 1; 0; 0; 0; 0]; [3; 3; 0; 0; 0; 0];
   [4; 4; 0; 0; 0; 0]; [5; 5; 0; 0; 0; 0]; [6; 6; 6; 6; 0; 0];
   [7; 7; 0; 0; 0; 0]; [8; 8; 8; 8; 0; 0]; [9; 9; 0; 0; 0; 0];
   [10; 10; 10; 10; 0; 0]; [11; 11; 0; 0; 0; 0]; [12; 12; 12; 12; 12; 12];
   [13; 13; 0; 0; 0; 0]; [14; 14; 14; 14; 0; 0]; [15; 15; 0; 0; 0; 0]].

(** Lines 470-487 of the reference. *)
Definition explain_1_simple_joins : list string :=
  ["Union";
   "  Expression";
   "    Expression";
   "      Join";
   "        Expression";
   "          Expression";
   "            Join";
   "              Expression";
   "                Expression";
   "                  ReadFromMergeTree";
   "              Expression";
   "                Expression";
   "                  ReadFromMergeTree";
   "        Expression";
   "          Expression";
   "            ReadFromMergeTree";
   "  Expression";
   "    ReadFromRemoteParallelReplicas"].

(** Lines 496-510 of the reference. *)
Definition rows_1_cte_joins : list (list Z) :=
  [[0; 0; 0; 0; 0; 0]; [1; 1; 0; 0; 0; 0]; [3; 3; 0; 0; 0; 0];
   [4; 4; 0; 0; 0; 0]; [5; 5; 0; 0; 0; 0]; [6; 6; 6; 6; 0; 0];
   [7; 7; 0; 0; 0; 0]; [8; 8; 8; 8; 0; 0]; [9; 9; 0; 0; 0; 0];
   [10; 10; 10; 10; 0; 0]; [11; 11; 0; 0; 0; 0]; [12; 12; 12; 12; 12; 12];
   [13; 13; 0; 0; 0; 0]; [14; 14; 14; 14; 0; 0]; [15; 15; 0; 0; 0; 0]].

(** Lines 518-539 of the reference. *)
Definition explain_1_cte_joins : list string :=
  ["Expression";
   "  Sorting";
   "    Union";
   "      Expression";
   "        Sorting";
   "          Expression";
   "            Expression";
   "              Join";
   "                Expression";
   "                  Expression";
   "                    Join";
   "                      Expression";
   "                        Expression";
   "                          ReadFromMergeTree";
   "                      Expression";
   "                        Expression";
   "                          ReadFromMergeTree";
   "                Expression";
   "                  Expression";
   "                    ReadFromMergeTree";
   "      Expression";
   "        ReadFromRemoteParallelReplicas"].

(** Lines 548-549 of the reference. *)
Definition rows_1_group_by : list (list Z) :=
  [[54; 54; 50; 50; 12; 12; 0]; [64; 64; 0; 0; 0; 0; 1]].

(** Lines 557-580 of the reference. *)
Definition explain_1_group_by : list string :=
  ["Expression";
   "  Sorting";
   "    Expression";
   "      MergingAggregated";
   "        Union";
   "          Expression";
   "            Aggregating";
   "              Expression";
   "                Expression";
   "                  Join";
   "                    Expression";
   "                      Expression";
   "                        Join";
   "                          Expression";
   "                            Expression";
   "                              ReadFromMergeTree";
   "                          Expression";
   "                            Expression";
   "                              ReadFromMergeTree";
   "                    Expression";
   "                      Expression";
   "                        ReadFromMergeTree";
   "          Expression";
   "            ReadFromRemoteParallelReplicas"].

(** Lines 589-603 of the reference. *)
Definition rows_1_order_by_sub3 : list (list Z) :=
  [[0; 0; 0; 0; 0; 0]; [1; 1; 0; 0; 0; 0]; [3; 3; 0; 0; 0; 0];
   [4; 4; 0; 0; 0; 0]; [5; 5; 0; 0; 0; 0]; [6; 6; 6; 6; 0; 0];
   [7; 7; 0; 0; 0; 0]; [8; 8; 8; 8; 0; 0]; [9; 9; 0; 0; 0; 0];
   [10; 10; 10; 10; 0; 0]; [11; 11; 0; 0; 0; 0]; [12; 12; 12; 12; 12; 12];
   [13; 13; 0; 0; 0; 0]; [14; 14; 14; 14; 0; 0]; [15; 15; 0; 0; 0; 0]].

(** Lines 611-634 of the reference. *)
Definition explain_1_order_by_sub3 : list string :=
  ["Expression";
   "  Sorting";
   "    Expression";
   "      Expression";
   "        Join";
   "          Union";
   "            Expression";
   "              Expression";
   "                Expression";
   "                  Join";
   "                    Expression";
   "                      Expression";
   "                        ReadFromMergeTree";
   "                    Expression";
   "                      Expression";
   "                        ReadFromMergeTree";
   "            Expression";
   "              ReadFromRemoteParallelReplicas";
   "          Union";
   "            Expression";
   "              Expression";
   "                ReadFromMergeTree";
   "            Expression";
   "              ReadFromRemoteParallelReplicas"].

(** Lines 643-657 of the reference. *)
Definition rows_1_order_by_sub1 : list (list Z) :=
  [[0; 0; 0; 0; 0; 0]; [1; 1; 0; 0; 0; 0]; [3; 3; 0; 0; 0; 0];
   [4; 4; 0; 0; 0; 0]; [5; 5; 0; 0; 0; 0]; [6; 6; 6; 6; 0; 0];
   [7; 7; 0; 0; 0; 0]; [8; 8; 8; 8; 0; 0]; [9; 9; 0; 0; 0; 0];
   [10; 10; 10; 10; 0; 0]; [11; 11; 0; 0; 0; 0]; [12; 12; 12; 12; 12; 12];
   [13; 13; 0; 0; 0; 0]; [14; 14; 14; 14; 0; 0]; [15; 15; 0; 0; 0; 0]].

(** Lines 665-691 of the reference. *)
Definition explain_1_order_by_sub1 : list string :=
  ["Expression";
   "  Sorting";
   "    Expression";
   "      Expression";
   "        Join";
   "          Expression";
   "            Expression";
   "              Join";
   "                Union";
   "                  Expression";
   "                    Expression";
   "                      Expression";
   "                        ReadFromMergeTree";
   "                  Expression";
   "                    ReadFromRemoteParallelReplicas";
   "                Union";
   "                  Expression";
   "                    Expression";
   "                      ReadFromMergeTree";
   "                  Expression";
   "                    ReadFromRemoteParallelReplicas";
   "          Union";
   "            Expression";
   "              Expression";
   "                ReadFromMergeTree";
   "            Expression";
   "              ReadFromRemoteParallelReplicas"].

(** Lines 700-714 of the reference. *)
Definition rows_1_right_join_sub3 : list (list Z) :=
  [[0; 0; 0; 0; 0; 0]; [1; 1; 0; 0; 0; 0]; [3; 3; 0; 0; 0; 0];
   [4; 4; 0; 0; 0; 0]; [5; 5; 0; 0; 0; 0]; [6; 6; 6; 6; 0; 0];
   [7; 7; 0; 0; 0; 0]; [8; 8; 8; 8; 0; 0]; [9; 9; 0; 0; 0; 0];
   [10; 10; 10; 10; 0; 0]; [11; 11; 0; 0; 0; 0]; [12; 12; 12; 12; 12; 12];
   [13; 13; 0; 0; 0; 0]; [14; 14; 14; 14; 0; 0]; [15; 15; 0; 0; 0; 0]].

(** Lines 722-739 of the reference. *)
Definition explain_1_right_join_sub3 : list string :=
  ["Union";
   "  Expression";
   "    Expression";
   "      Join";
   "        Expression";
   "          Expression";
   "            Join";
   "              Expression";
   "                Expression";
   "                  ReadFromMergeTree";
   "              Expression";
   "                Expression";
   "                  ReadFromMergeTree";
   "        Expression";
   "          Expression";
   "            ReadFromMergeTree";
   "  Expression";
   "    ReadFromRemoteParallelReplicas"].

(** Lines 748-762 of the reference. *)
Definition rows_1_right_join_sub5 : list (list Z) :=
  [[0; 0; 0; 0; 0; 0]; [0; 0; 1; 1; 0; 0]; [0; 0; 3; 3; 0; 0];
   [0; 0; 4; 4; 0; 0]; [0; 0; 5; 5; 0; 0]; [0; 0; 6; 6; 6; 6];
   [0; 0; 7; 7; 0; 0]; [0; 0; 8; 8; 8; 8]; [0; 0; 9; 9; 0; 0];
   [0; 0; 10; 10; 10; 10]; [0; 0; 11; 11; 0; 0]; [12; 12; 12; 12; 12; 12];
   [0; 0; 13; 13; 0; 0]; [0; 0; 14; 14; 14; 14]; [0; 0; 15; 15; 0; 0]].

(** Lines 770-791 of the reference. *)
Definition explain_1_right_join_sub5 : list string :=
  ["Expression";
   "  Sorting";
   "    Union";
   "      Expression";
   "        Sorting";
   "          Expression";
   "            Expression";
   "              Join";
   "                Expression";
   "                  Expression";
   "                    ReadFromMergeTree";
   "                Expression";
   "                  Expression";
   "                    Join";
   "                      Expression";
   "                        Expression";
   "                          ReadFromMergeTree";
   "                      Expression";
   "                        Expression";
   "                          ReadFromMergeTree";
   "      Expression";
   "        ReadFromRemoteParallelReplicas"].

(** Lines 800-814 of the reference. *)
Definition rows_1_in_allowed : list (list Z) :=
  [[0; 0; 0; 0; 0; 0]; [1; 1; 0; 0; 0; 0]; [3; 3; 0; 0; 0; 0];
   [4; 4; 0; 0; 0; 0]; [5; 5; 0; 0; 0; 0]; [6; 6; 6; 6; 0; 0];
   [7; 7; 0; 0; 0; 0]; [8; 8; 8; 8; 0; 0]; [9; 9; 0; 0; 0; 0];
   [10; 10; 10; 10; 0; 0]; [11; 11; 0; 0; 0; 0]; [12; 12; 12; 12; 12; 12];
   [13; 13; 0; 0; 0; 0]; [14; 14; 14; 14; 0; 0]; [15; 15; 0; 0; 0; 0]].

(** Lines 822-849 of the reference. *)
Definition explain_1_in_allowed : list string :=
  ["Expression";
   "  Sorting";
   "    Union";
   "      Expression";
   "        Sorting";
   "          Expression";
   "            Expression";
   "              Join";
   "                Expression";
   "                  Expression";
   "                    Join";
   "                      Expression";
   "                        CreatingSets";
   "                          Expression";
   "                            Expression";
   "                              ReadFromMergeTree";
   "                          CreatingSet";
   "                            Expression";
   "                              Filter";
   "                                ReadFromSystemNumbers";
   "                      Expression";
   "                        Expression";
   "                          ReadFromMergeTree";
   "                Expression";
   "                  Expression";
   "                    ReadFromMergeTree";
   "      Expression";
   "        ReadFromRemoteParallelReplicas"].

(** Lines 859-873 of the reference. *)
Definition rows_1_in_denied : list (list Z) :=
  [[0; 0; 0; 0; 0; 0]; [1; 1; 0; 0; 0; 0]; [3; 3; 0; 0; 0; 0];
   [4; 4; 0; 0; 0; 0]; [5; 5; 0; 0; 0; 0]; [6; 6; 6; 6; 0; 0];
   [7; 7; 0; 0; 0; 0]; [8; 8; 8; 8; 0; 0]; [9; 9; 0; 0; 0; 0];
   [10; 10; 10; 10; 0; 0]; [11; 11; 0; 0; 0; 0]; [12; 12; 12; 12; 12; 12];
   [13; 13; 0; 0; 0; 0]; [14; 14; 14; 14; 0; 0]; [15; 15; 0; 0; 0; 0]].

(** Lines 882-910 of the reference. *)
Definition explain_1_in_denied : list string :=
  ["Expression";
   "  Sorting";
   "    Expression";
   "      Expression";
   "        Join";
   "          Expression";
   "            Expression";
   "              Join";
   "                Expression";
   "                  CreatingSets";
   "                    Expression";
   "                      Expression";
   "                        ReadFromMergeTree";
   "                    CreatingSet";
   "                      Expression";
   "                        Filter";
   "                          ReadFromSystemNumbers";
   "                Union";
   "                  Expression";
   "                    Expression";
   "                      ReadFromMergeTree";
   "                  Expression";
   "                    ReadFromRemoteParallelReplicas";
   "          Union";
   "            Expression";
   "              Expression";
   "                ReadFromMergeTree";
   "            Expression";
   "              ReadFromRemoteParallelReplicas"].

(** The result rows printed for query [q] under the given setting. *)
Definition rows (prefer_local_join : bool) (q : Query) : list (list Z) :=
  match prefer_local_join, q with
  | false, SimpleJoins => rows_0_simple_joins
  | false, CteJoins => rows_0_cte_joins
  | false, GroupBy => rows_0_group_by
  | false, OrderBySub3 => rows_0_order_by_sub3
  | false, OrderBySub1 => rows_0_order_by_sub1
  | false, RightJoinSub3 => rows_0_right_join_sub3
  | false, RightJoinSub5 => rows_0_right_join_sub5
  | false, InAllowed => rows_0_in_allowed
  | false, InDenied => rows_0_in_denied
  | true, SimpleJoins => rows_1_simple_joins
  | true, CteJoins => rows_1_cte_joins
  | true, GroupBy => rows_1_group_by
  | true, OrderBySub3 => rows_1_order_by_sub3
  | true, OrderBySub1 => rows_1_order_by_sub1
  | true, RightJoinSub3 => rows_1_right_join_sub3
  | true, RightJoinSub5 => rows_1_right_join_sub5
  | true, InAllowed => rows_1_in_allowed
  | true, InDenied => rows_1_in_denied
  end.

(** The plan text printed for query [q] under the given setting. *)
Definition explain_text (prefer_local_join : bool) (q : Query) : list string :=
  match prefer_local_join, q with
  | false, SimpleJoins => explain_0_simple_joins
  | false, CteJoins => explain_0_cte_joins
  | false, GroupBy => explain_0_group_by
  | false, OrderBySub3 => explain_0_order_by_sub3
  | false, OrderBySub1 => explain_0_order_by_sub1
  | false, RightJoinSub3 => explain_0_right_join_sub3
  | false, RightJoinSub5 => explain_0_right_join_sub5
  | false, InAllowed => explain_0_in_allowed
  | false, InDenied => explain_0_in_denied
  | true, SimpleJoins => explain_1_simple_joins
  | true, CteJoins => explain_1_cte_joins
  | true, GroupBy => explain_1_group_by
  | true, OrderBySub3 => explain_1_order_by_sub3
  | true, OrderBySub1 => explain_1_order_by_sub1
  | true, RightJoinSub3 => explain_1_right_join_sub3
  | true, RightJoinSub5 => explain_1_right_join_sub5
  | true, InAllowed => explain_1_in_allowed
  | true, InDenied => explain_1_in_denied
  end.

(** A plan step with its inputs, as [explain] prints them: the step's name
    on one line, each input below it, indented by two more spaces. *)
Inductive Explain :=
| Op (name : string) (inputs : list Explain).

Fixpoint indent_of (s : string) : nat :=
  match s with
  | String " "%char s' => S (indent_of s')
  | _ => O
  end.

Fixpoint step_name (s : string) : string :=
  match s with
  | String " "%char s' => step_name s'
  | _ => s
  end.

(** Reading the lines from the last to the first: the subtrees already built
    that follow a line and are indented deeper than it are its inputs. *)
Fixpoint inputs_of (d : nat) (below : list (nat * Explain))
  : list Explain * list (nat * Explain) :=
  match below with
  | (d', t) :: rest =>
      if (d <? d')%nat
      then let '(ins, others) := inputs_of d rest in (t :: ins, others)
      else ([], below)
  | [] => ([], [])
  end.

Definition attach (line : string) (below : list (nat * Explain))
  : list (nat * Explain) :=
  let d := indent_of line in
  let '(ins, others) := inputs_of d below in
  (d, Op (step_name line) ins) :: others.

Definition parse (lines : list string) : list Explain :=
  snd <$> foldr attach [] lines.

(** The plan of a query; [explain] prints one tree, a text that parses to
    anything else yields the empty step. *)
Definition explain (prefer_local_join : bool) (q : Query) : Explain :=
  match parse (explain_text prefer_local_join q) with
  | [t] => t
  | _ => Op EmptyString []
  end.

(** The text of a plan: the inverse of [parse]. *)
Fixpoint spaces (d : nat) : string :=
  match d with
  | O => EmptyString
  | S d' => String " "%char (String " "%char (spaces d'))
  end.

Fixpoint render (d : nat) (t : Explain) : list string :=
  match t with
  | Op n ts => (spaces d +:+ n) :: foldr (fun c acc => render (S d) c ++ acc) [] ts
  end.

(** Number of steps called [n] in a plan. *)
Fixpoint count_step (n : string) (t : Explain) : nat :=
  match t with
  | Op m ts =>
      ((if bool_decide (m = n) then 1 else 0)
       + foldr (fun c acc => count_step n c + acc) 0 ts)%nat
  end.

(** A fan-out: the [Union] of the plan run locally and the remote branch. *)
Definition is_fan_out (t : Explain) : bool :=
  match t with
  | Op "Union" [local; remote] =>
      bool_decide (count_step "ReadFromRemoteParallelReplicas" local = 0%nat)
      && bool_decide (count_step "ReadFromRemoteParallelReplicas" remote = 1%nat)
  | _ => false
  end.

(** Number of fan-outs in a plan. *)
Fixpoint fan_outs (t : Explain) : nat :=
  match t with
  | Op _ ts =>
      ((if is_fan_out t then 1 else 0)
       + foldr (fun c acc => fan_outs c + acc) 0 ts)%nat
  end.

(** The steps on the way from the root down to each fan-out, nearest last:
    what the coordinator runs on top of the rows the fan-out delivers. *)
Fixpoint above_fan_outs (t : Explain) : list (list string) :=
  match t with
  | Op m ts =>
      if is_fan_out t then [[]]
      else (fun up => m :: up) <$> foldr (fun c acc => above_fan_outs c ++ acc) [] ts
  end.

(** Number of steps called [n] inside some fan-out, that is, run by every
    replica, and outside every fan-out, run by the coordinator alone. *)
Fixpoint count_inside (n : string) (t : Explain) : nat :=
  match t with
  | Op _ ts =>
      if is_fan_out t then count_step n t
      else foldr (fun c acc => count_inside n c + acc)%nat 0%nat ts
  end.

Definition count_outside (n : string) (t : Explain) : nat :=
  (count_step n t - count_inside n t)%nat.

(** The joins a query spells, in the order of its text.  Every query has
    two; the one of sub3 is [any right join] at line 241 and the one of
    sub5 at line 289, all others are [any left join]. *)
Inductive JoinWord := AnyLeftJoin | AnyRightJoin.

Definition query_joins (q : Query) : list JoinWord :=
  match q with
  | RightJoinSub3 => [AnyRightJoin; AnyLeftJoin]
  | RightJoinSub5 => [AnyLeftJoin; AnyRightJoin]
  | _ => [AnyLeftJoin; AnyLeftJoin]
  end.

(** *** Reading the output as a whole *)

(** A step name as [explain] prints it does not begin with a space, so the
    spaces in front of it on its line are the indentation. *)
Definition plain_name (n : string) : bool :=
  match n with
  | String " "%char _ => false
  | _ => true
  end.

Fixpoint well_named (t : Explain) : bool :=
  match t with
  | Op n ts => plain_name n && forallb well_named ts
  end.

(** The subtree that follows a line, if any, is indented by at most [d]
    spaces: it is not an input of a step printed at that indentation. *)
Definition follows (d : nat) (below : list (nat * Explain)) : Prop :=
  match below with
  | (d', _) :: _ => (d' ≤ d)%nat
  | [] => True
  end.

(** The number of inputs of each kind of step of the plans. *)
Definition inputs_expected (n : string) : nat :=
  if bool_decide (n ∈ ["Join"; "Union"; "CreatingSets"]) then 2%nat
  else if bool_decide (n ∈ ["ReadFromMergeTree"; "ReadFromMemoryStorage";
                            "ReadFromRemoteParallelReplicas";
                            "ReadFromSystemNumbers"]) then 0%nat
  else 1%nat.

Fixpoint well_formed (t : Explain) : bool :=
  match t with
  | Op n ts =>
      bool_decide (length ts = inputs_expected n) && forallb well_formed ts
  end.

(** The difference between the two halves of the reference: where the plans
    of [parallel_replicas_prefer_local_join = 0] read a joined table from
    memory storage (lines 33, 35, ...), those of [= 1] read it from the
    table itself, under one more Expression step (lines 481-482, 484-485,
    ...). *)
Fixpoint local_join (t : Explain) : Explain :=
  match t with
  | Op n [] =>
      if bool_decide (n = "ReadFromMemoryStorage")
      then Op "Expression" [Op "ReadFromMergeTree" []]
      else t
  | Op n ts => Op n (List.map local_join ts)
  end.

(** The second input of the Unions of the reference (lines 36-37). *)
Definition remote_branch : Explain :=
  Op "Expression" [Op "ReadFromRemoteParallelReplicas" []].

(** Every Union step of a plan with its inputs, and the name of the step
    that reads the Union's rows ([parent] for the root). *)
Fixpoint unions (parent : string) (t : Explain)
  : list (string * list Explain) :=
  match t with
  | Op n ts =>
      (if bool_decide (n = "Union") then [(parent, ts)] else [])
      ++ foldr (λ c acc, unions n c ++ acc) [] ts
  end.

(** The step that prepares on every replica what a step of the coordinator
    finishes: Sorting merges sorted streams, MergingAggregated merges the
    states of Aggregating. *)
Definition first_stage (parent : string) : option string :=
  if bool_decide (parent = "Sorting") then Some "Sorting"
  else if bool_decide (parent = "MergingAggregated") then Some "Aggregating"
  else None.

(** The queries that select the columns [x, y, r.y, z, rr.z, a] of the same
    two joins, one row per row of [tab1]: all but the GROUP BY query (lines
    90-95) and the query with the RIGHT JOIN in sub5 (lines 285-290). *)
Definition same_join (q : Query) : bool :=
  match q with
  | GroupBy | RightJoinSub5 => false
  | _ => true
  end.

(** The select list of sub5 at line 289, [z, a, x, y, r.y, ll.z] with
    [sub4 rr] on the left of the join, in terms of the columns
    [x, y, r.y, z, rr.z, a] of the other queries. *)
Definition right_join_columns (r : list Z) : list Z :=
  match r with
  | [x; y; ry; z; rrz; a] => [rrz; a; x; y; ry; z]
  | _ => r
  end.

(** The select list of sub5 at line 94:
    [sum(x), sum(y), sum(r.y), sum(z), sum(rr.z), sum(a), key] with
    [group by x % 2 as key], and [order by key] at line 95. *)
Definition sum_columns (rs : list (list Z)) : list Z :=
  foldr (zip_with Z.add) (replicate 6 0) rs.

Definition parity (r : list Z) : Z := hd 0 r `mod` 2.

Definition group_by_parity (rs : list (list Z)) : list (list Z) :=
  (λ k, sum_columns (filter (λ r, parity r = k) rs) ++ [k])
    <$> merge_sort Z.le (remove_dups (parity <$> rs)).

(** The position of the column a query orders its rows by: [order by x]
    (and [order by all], whose first column is [x]), with [x] the third
    column at line 289, and [order by key], the last column, at line 95. *)
Definition order_column (q : Query) : nat :=
  match q with
  | GroupBy => 6%nat
  | RightJoinSub5 => 2%nat
  | _ => 0%nat
  end.

(** The number of columns of the select list. *)
Definition width (q : Query) : nat :=
  match q with
  | GroupBy => 7%nat
  | _ => 6%nat
  end.

End Reference.

(** ** Plan tree *)

(** Modelled from the spec: rows, table identities and set handles of the
    data model (section 3).  The splitter's sources are not available; rows
    are lists of integers, as in the tables of the test. *)
Definition Row := list Z.
Definition Table := string.
Definition Handle := nat.

(** Modelled from the spec: the kinds of a Join (section 3). *)
Inductive JoinKind := Inner | Left | Right | Full.

(** Modelled from the spec: the materialization policy tag of a SetBuild
    (section 3). *)
Inductive SetPolicy := Once | PerReplica.

(** Modelled from the spec: a filter condition is a test on the row, or the
    membership of a column in the set that a SetBuild bound to a handle
    ("a handle referenced by predicates", section 3). *)
Inductive Pred :=
| RowTest (test : Row → bool)
| InSet (column : Row → Z) (handle : Handle).

(** Modelled from the spec: the join keys of both inputs (section 3), and
    the default values that pad a row of one input that has no partner in
    the other, as the reference results show them. *)
Record JoinKeys := {
  left_key : Row → Z;
  right_key : Row → Z;
  left_default : Row;
  right_default : Row
}.

(** Modelled from the spec: the aggregate functions of an Aggregate
    (section 3): the partial state of one row, the combination of two
    partial states, and the final values of a state. *)
Record AggFns := {
  agg_state : Row → Row;
  agg_combine : Row → Row → Row;
  agg_finalize : Row → Row
}.

(** Modelled from the spec: the PlanNode variant of section 3.  A
    PartialAggregate is an [Aggregate] with [finalized = false]; a Scan
    carries the partition-assignment slot that the rewriter sets;
    [MergeAggregate], [MergeSort] and the remote-read leaf [RemoteRead] are
    the nodes that section 4.2 lets the rewriter introduce. *)
Inductive PlanNode :=
| Scan (table : Table) (distributable : bool) (partition_slot : bool)
| Filter (cond : Pred) (input : PlanNode)
| Expression (f : Row → Row) (input : PlanNode)
| Join (kind : JoinKind) (keys : JoinKeys) (lhs rhs : PlanNode)
| Aggregate (group_key : Row → Z) (fns : AggFns) (finalized : bool)
    (input : PlanNode)
| MergeAggregate (fns : AggFns) (finalized : bool) (input : PlanNode)
| Sort (sort_key : Row → Z) (global : bool) (input : PlanNode)
| MergeSort (sort_key : Row → Z) (input : PlanNode)
| SetBuild (inner : PlanNode) (policy : SetPolicy) (handle : Handle)
    (input : PlanNode)
| Union (inputs : list PlanNode)
| FanOutReplica (input : PlanNode)
| RemoteRead (replica : nat).

(** Modelled from the spec: the explicit configuration value passed to
    [split] (section 9).  [remote_replicas] is the number N of remote
    replicas of a fan-out; [allow_in_with_subquery] is false when the
    configuration denies IN-subqueries under distributed execution. *)
Record Config := {
  remote_replicas : nat;
  allow_in_with_subquery : bool
}.

(** Modelled from the spec: the error taxonomy of section 7. *)
Inductive PlanError :=
| UnsupportedDistribution
| InconsistentSchema
| PolicyConflict.

(** Modelled from the spec: the ordered child nodes of a node (section 3).
    The inner plan of a SetBuild is payload: it is a query of its own, not
    an input of the node. *)
Definition children (n : PlanNode) : list PlanNode :=
  match n with
  | Scan _ _ _ | RemoteRead _ => []
  | Filter _ c | Expression _ c | Aggregate _ _ _ c | MergeAggregate _ _ c
  | Sort _ _ c | MergeSort _ c | SetBuild _ _ _ c | FanOutReplica c => [c]
  | Join _ _ l r => [l; r]
  | Union cs => cs
  end.

(** A node is designated by the child indices on the way from the root. *)
Definition Path := list nat.

Fixpoint node_at (n : PlanNode) (p : Path) : option PlanNode :=
  match p with
  | [] => Some n
  | i :: p' =>
      match children n !! i with
      | Some c => node_at c p'
      | None => None
      end
  end.

Definition set_child (n : PlanNode) (i : nat) (c : PlanNode) : PlanNode :=
  match n, i with
  | Filter q _, O => Filter q c
  | Expression f _, O => Expression f c
  | Aggregate g a fin _, O => Aggregate g a fin c
  | MergeAggregate a fin _, O => MergeAggregate a fin c
  | Sort k g _, O => Sort k g c
  | MergeSort k _, O => MergeSort k c
  | SetBuild inner pol h _, O => SetBuild inner pol h c
  | FanOutReplica _, O => FanOutReplica c
  | Join k ks _ r, O => Join k ks c r
  | Join k ks l _, S O => Join k ks l c
  | Union cs, _ => Union (<[i := c]> cs)
  | _, _ => n
  end.

(** The tree with the subtree at [p] replaced by [new]. *)
Fixpoint replace_at (n : PlanNode) (p : Path) (new : PlanNode) : PlanNode :=
  match p with
  | [] => new
  | i :: p' =>
      match children n !! i with
      | Some c => set_child n i (replace_at c p' new)
      | None => n
      end
  end.

(** Two nodes are the same step when they agree in all but their inputs
    (a Union in the number of its inputs). *)
Definition same_step (a b : PlanNode) : Prop :=
  match a, b with
  | Scan t d s, Scan t' d' s' => t = t' ∧ d = d' ∧ s = s'
  | Filter q _, Filter q' _ => q = q'
  | Expression f _, Expression f' _ => f = f'
  | Join k ks _ _, Join k' ks' _ _ => k = k' ∧ ks = ks'
  | Aggregate g a fin _, Aggregate g' a' fin' _ =>
      g = g' ∧ a = a' ∧ fin = fin'
  | MergeAggregate a fin _, MergeAggregate a' fin' _ => a = a' ∧ fin = fin'
  | Sort k g _, Sort k' g' _ => k = k' ∧ g = g'
  | MergeSort k _, MergeSort k' _ => k = k'
  | SetBuild inner pol h _, SetBuild inner' pol' h' _ =>
      inner = inner' ∧ pol = pol' ∧ h = h'
  | Union cs, Union cs' => length cs = length cs'
  | FanOutReplica _, FanOutReplica _ => True
  | RemoteRead i, RemoteRead i' => i = i'
  | _, _ => False
  end.

(** Whether a distributable scan occurs in a plan, inner plans included. *)
Fixpoint contains_distributable (n : PlanNode) : bool :=
  match n with
  | Scan _ d _ => d
  | RemoteRead _ => false
  | Filter _ c | Expression _ c | Aggregate _ _ _ c | MergeAggregate _ _ c
  | Sort _ _ c | MergeSort _ c | FanOutReplica c => contains_distributable c
  | SetBuild inner _ _ c =>
      contains_distributable inner || contains_distributable c
  | Join _ _ l r => contains_distributable l || contains_distributable r
  | Union cs => existsb contains_distributable cs
  end.

(** ** IN-subquery materialization policy *)

(** Modelled from the spec: section 4.3.  An inner plan with a
    distributable scan disallows [Once] and forces [PerReplica]; any other
    SetBuild keeps the policy it is tagged with. *)
Definition resolved_policy (inner : PlanNode) (tag : SetPolicy) : SetPolicy :=
  if contains_distributable inner then PerReplica else tag.

(** Modelled from the spec: [decide_set_policy(node, config)] of sections
    4.3 and 6.  When the configuration denies IN-subqueries under
    distributed execution no policy is available ([None], the
    [PolicyConflict] condition of section 7); a node that is no SetBuild has
    no policy either. *)
Definition decide_set_policy (n : PlanNode) (cfg : Config) : option SetPolicy :=
  match n with
  | SetBuild inner pol _ _ =>
      if allow_in_with_subquery cfg then Some (resolved_policy inner pol)
      else None
  | _ => None
  end.

(** ** Cut-Point Analyzer *)

(** Modelled from the spec: [classify(node)] of sections 4.1 and 6, which
    tells whether a node is merge-requiring in isolation: a finalized
    Aggregate, a global Sort, a Right or Full Join, or a SetBuild that has
    no policy available under the configuration.  The test looks at the
    node alone, so every finalized Aggregate counts, wherever it stands. *)
Definition classify (cfg : Config) (n : PlanNode) : bool :=
  match n with
  | Aggregate _ _ finalized _ => finalized
  | Sort _ global _ => global
  | Join (Right | Full) _ _ _ => true
  | SetBuild _ _ _ _ => bool_decide (decide_set_policy n cfg = None)
  | _ => false
  end.

(** Modelled from the spec: the cuts found in the inputs of an n-ary node,
    from input [i] on.  One input with a cut passes it up; two make the node
    itself the lowest node above every merge-requiring node. *)
Fixpoint join_cuts (i : nat) (found : list (option Path)) : option Path :=
  match found with
  | [] => None
  | r :: rest =>
      match r, join_cuts (S i) rest with
      | None, o => o
      | Some p, None => Some (i :: p)
      | Some _, Some _ => Some []
      end
  end.

(** Modelled from the spec: the post-order traversal of section 4.1.
    [find_cut] is [None] when no node of the tree is merge-requiring, and
    otherwise the path of the lowest node that has every merge-requiring
    node on or below it, with the tie-break that a Join with a
    merge-requiring node in an input is the cut itself. *)
Fixpoint find_cut (cfg : Config) (n : PlanNode) : option Path :=
  if classify cfg n then Some []
  else
    match n with
    | Scan _ _ _ | RemoteRead _ => None
    | Filter _ c | Expression _ c | Aggregate _ _ _ c | MergeAggregate _ _ c
    | Sort _ _ c | MergeSort _ c | SetBuild _ _ _ c | FanOutReplica c =>
        cons O <$> find_cut cfg c
    | Join _ _ l r =>
        match find_cut cfg l, find_cut cfg r with
        | None, None => None
        | _, _ => Some []
        end
    | Union cs => join_cuts O (List.map (find_cut cfg) cs)
    end.

(** Modelled from the spec: the CutPoint of section 4.1, the root when no
    node is merge-requiring. *)
Definition cut_point (cfg : Config) (n : PlanNode) : Path :=
  default [] (find_cut cfg n).

(** The paths of the merge-requiring nodes of a tree, and their lowest
    common ancestor, follow the words of the invariant of section 3; they
    are what [find_cut] is compared with. *)
Fixpoint prefix_paths (i : nat) (pss : list (list Path)) : list Path :=
  match pss with
  | [] => []
  | ps :: rest => (cons i <$> ps) ++ prefix_paths (S i) rest
  end.

Fixpoint merge_paths (cfg : Config) (n : PlanNode) : list Path :=
  (if classify cfg n then [[]] else [])
  ++ match n with
     | Scan _ _ _ | RemoteRead _ => []
     | Filter _ c | Expression _ c | Aggregate _ _ _ c | MergeAggregate _ _ c
     | Sort _ _ c | MergeSort _ c | SetBuild _ _ _ c | FanOutReplica c =>
         cons O <$> merge_paths cfg c
     | Join _ _ l r =>
         (cons O <$> merge_paths cfg l) ++ (cons 1%nat <$> merge_paths cfg r)
     | Union cs => prefix_paths O (List.map (merge_paths cfg) cs)
     end.

(** The lowest common ancestor of a set of nodes: the longest common
    prefix of their paths (the root for the empty set). *)
Fixpoint common_prefix (p q : Path) : Path :=
  match p, q with
  | i :: p', j :: q' => if decide (i = j) then i :: common_prefix p' q' else []
  | _, _ => []
  end.

Definition lowest_common_ancestor (ps : list Path) : Path :=
  match ps with
  | [] => []
  | p :: rest => foldr common_prefix p rest
  end.

(** The first Join on the way from the root along [p], or the end of [p]
    when there is none. *)
Fixpoint topmost_join (n : PlanNode) (p : Path) : Path :=
  match n, p with
  | Join _ _ _ _, _ => []
  | _, [] => []
  | _, i :: p' =>
      match children n !! i with
      | Some c => i :: topmost_join c p'
      | None => []
      end
  end.

(** What the traversal finds, in terms of the merge-requiring nodes. *)
Definition cut_found (cfg : Config) (n : PlanNode) : Prop :=
  match find_cut cfg n with
  | None => merge_paths cfg n = []
  | Some p =>
      merge_paths cfg n ≠ []
      ∧ p = topmost_join n (lowest_common_ancestor (merge_paths cfg n))
  end.

(** ** Plan Rewriter *)

(** Modelled from the spec: the replica side of section 4.2.  Every
    distributable scan gains the partition-assignment slot and broadcast
    scans are left whole.  A SetBuild is tagged with its resolved policy
    (section 4.3); its inner plan is left as it is, so that it reads whole
    tables. *)
Fixpoint assign_slots (n : PlanNode) : PlanNode :=
  match n with
  | Scan t d _ => Scan t d d
  | RemoteRead i => RemoteRead i
  | Filter q c => Filter q (assign_slots c)
  | Expression f c => Expression f (assign_slots c)
  | Join k ks l r => Join k ks (assign_slots l) (assign_slots r)
  | Aggregate g a fin c => Aggregate g a fin (assign_slots c)
  | MergeAggregate a fin c => MergeAggregate a fin (assign_slots c)
  | Sort k g c => Sort k g (assign_slots c)
  | MergeSort k c => MergeSort k (assign_slots c)
  | SetBuild inner pol h c =>
      SetBuild inner (resolved_policy inner pol) h (assign_slots c)
  | Union cs => Union (List.map assign_slots cs)
  | FanOutReplica c => FanOutReplica (assign_slots c)
  end.

(** Modelled from the spec: the FanOutReplica node of section 4.2, a union
    of one local execution of the replica subplan and one remote-read leaf
    per remote replica. *)
Definition fan_out (cfg : Config) (replica : PlanNode) : PlanNode :=
  FanOutReplica
    (Union (replica :: (RemoteRead <$> seq 1 (remote_replicas cfg)))).

(** Modelled from the spec: the [cut_reason] of section 6.  The design
    document names only [FullyDistributable]; the other values name the
    kind of the cut node. *)
Inductive CutReason :=
| FullyDistributable
| AggregateSplit
| SortSplit
| CoordinatorNode.

(** Modelled from the spec: the result of [split] (section 6). *)
Record SplitPlan := {
  replica_subplan : PlanNode;
  coordinator_subplan : PlanNode;
  cut_reason : CutReason
}.

(** Modelled from the spec: [split(plan, config)] of section 6, by the
    rules of section 4.2.

    - No merge-requiring node: the whole tree is the replica subplan and the
      coordinator subplan is the fan-out alone.
    - The cut is a finalized Aggregate: a partial Aggregate is pushed into
      the replica subplan and a MergeAggregate stands directly above the
      fan-out.
    - The cut is a global Sort: a local Sort is pushed and a MergeSort
      stands above the fan-out.
    - The cut is a Join or a SetBuild: the node itself stays in the
      coordinator subplan and its input that holds the distributable scans
      becomes the replica subplan; a Join with distributable scans in both
      inputs signals [UnsupportedDistribution], as does any other cut node.

    The degraded single-coordinator mode of section 4.1 only lowers the
    replica count at dispatch; it is the case [remote_replicas cfg = 0]. *)
Definition split (n : PlanNode) (cfg : Config) : PlanError + SplitPlan :=
  match find_cut cfg n with
  | None =>
      let r := assign_slots n in
      inr {| replica_subplan := r;
             coordinator_subplan := fan_out cfg r;
             cut_reason := FullyDistributable |}
  | Some p =>
      match node_at n p with
      | Some (Aggregate g a true c) =>
          let r := Aggregate g a false (assign_slots c) in
          inr {| replica_subplan := r;
                 coordinator_subplan :=
                   replace_at n p (MergeAggregate a true (fan_out cfg r));
                 cut_reason := AggregateSplit |}
      | Some (Sort k true c) =>
          let r := Sort k false (assign_slots c) in
          inr {| replica_subplan := r;
                 coordinator_subplan :=
                   replace_at n p (MergeSort k (fan_out cfg r));
                 cut_reason := SortSplit |}
      | Some (Join k ks l r) =>
          match contains_distributable l, contains_distributable r with
          | true, true => inl UnsupportedDistribution
          | false, true =>
              let rp := assign_slots r in
              inr {| replica_subplan := rp;
                     coordinator_subplan :=
                       replace_at n p (Join k ks l (fan_out cfg rp));
                     cut_reason := CoordinatorNode |}
          | _, false =>
              let rp := assign_slots l in
              inr {| replica_subplan := rp;
                     coordinator_subplan :=
                       replace_at n p (Join k ks (fan_out cfg rp) r);
                     cut_reason := CoordinatorNode |}
          end
      | Some (SetBuild inner pol h c) =>
          let rp := assign_slots c in
          inr {| replica_subplan := rp;
                 coordinator_subplan :=
                   replace_at n p (SetBuild inner pol h (fan_out cfg rp));
                 cut_reason := CoordinatorNode |}
      | _ => inl UnsupportedDistribution
      end
  end.

(** Plans built from Scan, Filter, Expression and Inner or Left Join. *)
Fixpoint simple_plan (n : PlanNode) : bool :=
  match n with
  | Scan _ _ _ => true
  | Filter _ c | Expression _ c => simple_plan c
  | Join (Inner | Left) _ l r => simple_plan l && simple_plan r
  | _ => false
  end.

(** A plan as the plan compiler hands it over: built from the operators of
    a query, no scan with a partition slot, and none of the nodes that only
    the rewriter introduces.  Inner plans are source plans as well. *)
Fixpoint source_plan (n : PlanNode) : bool :=
  match n with
  | Scan _ _ slot => negb slot
  | Filter _ c | Expression _ c | Aggregate _ _ _ c | Sort _ _ c =>
      source_plan c
  | SetBuild inner _ _ c => source_plan inner && source_plan c
  | Join _ _ l r => source_plan l && source_plan r
  | Union cs => forallb source_plan cs
  | MergeAggregate _ _ _ | MergeSort _ _ | FanOutReplica _ | RemoteRead _ =>
      false
  end.

(** ** Execution of plans

    Row-scan execution and the network layer are external to the splitter.
    The definitions below give each operator its usual relational meaning,
    so that the guarantee of section 4.2 can be stated. *)

(** Modelled from the spec: where a plan runs.  A site knows the full
    contents of every table (broadcast tables, and tables read without a
    slot), the partition of each table assigned to this replica, and the
    rows each remote replica streams back (sections 4.2 and 5).  A set built
    on the coordinator is "attached as a constant input to every branch"
    (section 4.3): a remote replica runs with the sets that are bound where
    its remote-read leaf stands. *)
Record Site := {
  tables : Table → list Row;
  slice : Table → list Row;
  remote : gmap Handle (list Z) → nat → list Row
}.

(** Modelled from the spec: the meaning of a filter condition, given the
    sets bound by the SetBuild nodes above. *)
Definition pred_holds (sets : gmap Handle (list Z)) (q : Pred) (r : Row) : bool :=
  match q with
  | RowTest test => test r
  | InSet column h =>
      match sets !! h with
      | Some s => bool_decide (column r ∈ s)
      | None => false
      end
  end.

Definition key_match (ks : JoinKeys) (a b : Row) : bool :=
  bool_decide (left_key ks a = right_key ks b).

(** Modelled from the spec: the rows a left row contributes to a Join: one
    per partner, or the row padded with defaults when [pad] is set and it
    has no partner. *)
Definition left_row_join (pad : bool) (ks : JoinKeys) (r : list Row) (a : Row)
  : list Row :=
  match filter (λ b, key_match ks a b) r with
  | [] => if pad then [a ++ right_default ks] else []
  | ms => (λ b, a ++ b) <$> ms
  end.

Definition right_row_join (ks : JoinKeys) (l : list Row) (b : Row) : list Row :=
  match filter (λ a, key_match ks a b) l with
  | [] => [left_default ks ++ b]
  | ms => (λ a, a ++ b) <$> ms
  end.

Definition unmatched_right (ks : JoinKeys) (l r : list Row) : list Row :=
  (λ b, left_default ks ++ b)
    <$> filter (λ b, filter (λ a, key_match ks a b) l = []) r.

(** Modelled from the spec: the four kinds of Join.  An Inner Join keeps
    the pairs of partners; a Left Join also keeps the left rows without a
    partner, a Right Join the right rows without one, a Full Join both. *)
Definition join_rows (k : JoinKind) (ks : JoinKeys) (l r : list Row) : list Row :=
  match k with
  | Inner => l ≫= left_row_join false ks r
  | Left => l ≫= left_row_join true ks r
  | Right => r ≫= right_row_join ks l
  | Full => (l ≫= left_row_join true ks r) ++ unmatched_right ks l r
  end.

(** Modelled from the spec: aggregation states per group.  A row adds its
    state to the state of its group, combining with what is there. *)
Definition add_state (fns : AggFns) (k : Z) (s : Row) (m : gmap Z Row)
  : gmap Z Row :=
  partial_alter
    (λ o, Some (match o with Some s' => agg_combine fns s s' | None => s end))
    k m.

Definition group_states (fns : AggFns) (key : Row → Z) (state : Row → Row)
    (rows : list Row) : gmap Z Row :=
  foldr (λ r m, add_state fns (key r) (state r) m) ∅ rows.

(** Modelled from the spec: the rows an aggregation emits: per group its
    key, followed by the final values when finalized and by the partial
    state otherwise ("emits per-group partial state", section 4.2). *)
Definition emit_groups (fns : AggFns) (finalized : bool) (m : gmap Z Row)
  : list Row :=
  (λ kv, fst kv :: (if finalized then agg_finalize fns (snd kv) else snd kv))
    <$> map_to_list m.

Definition aggregate_rows (key : Row → Z) (fns : AggFns) (finalized : bool)
    (rows : list Row) : list Row :=
  emit_groups fns finalized (group_states fns key (agg_state fns) rows).

(** Modelled from the spec: MergeAggregate "combines partial states across
    branches, finalizes" (section 4.2).  It reads rows of partial states:
    the group key, then the state. *)
Definition merge_aggregate_rows (fns : AggFns) (finalized : bool)
    (rows : list Row) : list Row :=
  emit_groups fns finalized (group_states fns (hd 0) (drop 1) rows).

(** Combining the states of two partitions, group by group. *)
Definition merge_states (fns : AggFns) (m1 m2 : gmap Z Row) : gmap Z Row :=
  union_with (λ a b, Some (agg_combine fns a b)) m1 m2.

(** The combine step of the aggregate functions is associative and
    commutative. *)
Definition agg_lawful (fns : AggFns) : Prop :=
  (∀ a b c, agg_combine fns a (agg_combine fns b c)
            = agg_combine fns (agg_combine fns a b) c)
  ∧ (∀ a b, agg_combine fns a b = agg_combine fns b a).

(** Modelled from the spec: sorting by the sort key. *)
Definition by_key (k : Row → Z) : relation Row := λ a b, k a ≤ k b.

Global Instance by_key_dec (k : Row → Z) (a b : Row) : Decision (by_key k a b) :=
  Z_le_dec (k a) (k b).

Definition sort_rows (k : Row → Z) (rows : list Row) : list Row :=
  merge_sort (by_key k) rows.

(** Modelled from the spec: MergeSort, the "k-way merge of already-sorted
    streams" of section 4.2. *)
Definition merge_streams (k : Row → Z) (streams : list (list Row)) : list Row :=
  foldr (list_merge (by_key k)) [] streams.

(** Modelled from the spec: the rows a plan yields at a site, given the
    sets bound so far.  A MergeSort merges the streams of the branches of
    the fan-out below it; every other consumer of a fan-out sees its
    branches one after the other.  A SetBuild evaluates its inner plan and
    binds the first column of its rows to the handle. *)
Fixpoint eval (site : Site) (sets : gmap Handle (list Z)) (n : PlanNode)
  : list Row :=
  match n with
  | Scan t _ slot => if slot then slice site t else tables site t
  | RemoteRead i => remote site sets i
  | Filter q c => filter (λ r, pred_holds sets q r) (eval site sets c)
  | Expression f c => f <$> eval site sets c
  | Join k ks l r => join_rows k ks (eval site sets l) (eval site sets r)
  | Aggregate g a fin c => aggregate_rows g a fin (eval site sets c)
  | MergeAggregate a fin c => merge_aggregate_rows a fin (eval site sets c)
  | Sort k _ c => sort_rows k (eval site sets c)
  | MergeSort k c =>
      match c with
      | FanOutReplica (Union branches) =>
          merge_streams k (List.map (eval site sets) branches)
      | _ => merge_streams k [eval site sets c]
      end
  | SetBuild inner _ h c =>
      eval site (<[h := hd 0 <$> eval site sets inner]> sets) c
  | Union cs => concat (List.map (eval site sets) cs)
  | FanOutReplica c => eval site sets c
  end.

(** Modelled from the spec: single-node evaluation, where every scan reads
    its whole table. *)
Definition single_site (tbl : Table → list Row) : Site :=
  {| tables := tbl; slice := tbl; remote := λ _ _, [] |}.

Definition run_single (tbl : Table → list Row) (n : PlanNode) : list Row :=
  eval (single_site tbl) ∅ n.

(** Modelled from the spec: what replica [i] yields for the replica
    subplan, whose scans with a slot read the partitions assigned to
    replica [i]. *)
Definition replica_site (tbl : Table → list Row)
    (parts : nat → Table → list Row) (i : nat) : Site :=
  {| tables := tbl; slice := parts i; remote := λ _ _, [] |}.

Definition run_replica (tbl : Table → list Row)
    (parts : nat → Table → list Row) (sets : gmap Handle (list Z)) (i : nat)
    (n : PlanNode) : list Row :=
  eval (replica_site tbl parts i) sets n.

(** Modelled from the spec: execution of a split plan.  The coordinator is
    replica 0 and runs the coordinator subplan; remote-read leaf [i]
    delivers what replica [i] yields for the replica subplan. *)
Definition coordinator_site (tbl : Table → list Row)
    (parts : nat → Table → list Row) (replica : PlanNode) : Site :=
  {| tables := tbl; slice := parts O;
     remote := λ sets i, run_replica tbl parts sets i replica |}.

Definition run_split (tbl : Table → list Row)
    (parts : nat → Table → list Row) (sp : SplitPlan) : list Row :=
  eval (coordinator_site tbl parts (replica_subplan sp)) ∅
    (coordinator_subplan sp).

(** Modelled from the spec: a disjoint and exhaustive partitioning of the
    tables over replicas [0 .. n]: the partitions of a table together hold
    each of its rows exactly as often as the table does. *)
Definition partitioned (n : nat) (tbl : Table → list Row)
    (parts : nat → Table → list Row) : Prop :=
  ∀ t, concat ((λ i, parts i t) <$> seq 0 (S n)) ≡ₚ tbl t.

(** ** Plans whose rows add up over partitions *)

(** A source plan that reads broadcast tables only. *)
Definition broadcast_only (n : PlanNode) : bool :=
  source_plan n && negb (contains_distributable n).

(** A pipeline of steps whose rows add up over the partitions of the
    distributable tables: what the replicas yield for its replica subplan
    is, taken together, what a single node yields for it.  These are a
    Scan of a distributable table, the steps that work row by row on one
    input (Filter, Expression, a Sort, a SetBuild over a source plan), a
    Union of such plans, and a Join whose other input reads broadcast
    tables only and does not contribute rows without a partner: either
    input of an Inner Join, the right input of a Left Join, the left input
    of a Right Join. *)
Fixpoint additive (n : PlanNode) : bool :=
  match n with
  | Scan _ d slot => d && negb slot
  | Filter _ c | Expression _ c | Sort _ _ c => additive c
  | SetBuild inner _ _ c => source_plan inner && additive c
  | Join Inner _ l r =>
      (additive l && broadcast_only r) || (broadcast_only l && additive r)
  | Join Left _ l r => additive l && broadcast_only r
  | Join Right _ l r => broadcast_only l && additive r
  | Union cs =>
      match cs with
      | [] => false
      | _ => forallb additive cs
      end
  | _ => false
  end.

(** The combine step of every Aggregate of the plan is associative and
    commutative. *)
Fixpoint lawful_aggregates (n : PlanNode) : Prop :=
  match n with
  | Scan _ _ _ | RemoteRead _ => True
  | Filter _ c | Expression _ c | Sort _ _ c | MergeSort _ c
  | SetBuild _ _ _ c | FanOutReplica c => lawful_aggregates c
  | Aggregate _ a _ c | MergeAggregate a _ c =>
      agg_lawful a ∧ lawful_aggregates c
  | Join _ _ l r => lawful_aggregates l ∧ lawful_aggregates r
  | Union cs => foldr (λ c acc, lawful_aggregates c ∧ acc) True cs
  end.

(** The cut nodes below which [split] pushes an additive plan: a finalized
    Aggregate or a global Sort over one, a Join with one additive input and
    one input that reads broadcast tables only, a SetBuild over one. *)
Definition cut_splits (m : PlanNode) : Prop :=
  match m with
  | Aggregate _ _ true c | Sort _ true c | SetBuild _ _ _ c =>
      additive c = true
  | Join _ _ l r =>
      (additive l = true ∧ broadcast_only r = true)
      ∨ (broadcast_only l = true ∧ additive r = true)
  | _ => False
  end.

(** The plans for which the rewriter's guarantee is proved below: source
    plans with lawful aggregate functions whose replica subplan is additive.
    Without a merge-requiring node that is the whole plan; otherwise it is
    what [split] pushes below the node at the cut. *)
Definition guaranteed (cfg : Config) (n : PlanNode) : Prop :=
  source_plan n = true
  ∧ lawful_aggregates n
  ∧ match find_cut cfg n with
    | None => additive n = true
    | Some p =>
        match node_at n p with
        | Some m => cut_splits m
        | None => False
        end
    end.

(** ** Example plans and tables *)

Definition first_column_keys : JoinKeys :=
  {| left_key := hd 0; right_key := hd 0;
     left_default := [0]; right_default := [0] |}.

(** [sum] of the first column. *)
Definition sum_first_column : AggFns :=
  {| agg_state := λ r, [hd 0 r];
     agg_combine := λ a b, [hd 0 a + hd 0 b];
     agg_finalize := λ s, s |}.

Definition two_replicas : Config :=
  {| remote_replicas := 1; allow_in_with_subquery := true |}.

Definition in_denied : Config :=
  {| remote_replicas := 1; allow_in_with_subquery := false |}.

(** Scenario A of the design document. *)
Definition scenario_a : PlanNode :=
  Join Left first_column_keys (Scan "T1" true false) (Scan "T2" false false).

(** Scenario B of the design document. *)
Definition scenario_b : PlanNode := Sort (hd 0) true scenario_a.

(** Scenario B below a filter: the global Sort is not the root. *)
Definition filtered_scenario_b : PlanNode :=
  Filter (RowTest (λ r, bool_decide (hd 0 r ≠ 2))) scenario_b.

(** A GROUP BY over scenario A. *)
Definition grouped_scenario : PlanNode :=
  Aggregate (λ r, hd 0 r `mod` 2) sum_first_column true scenario_a.

(** A Right Join as the only merge-requiring node, below a filter. *)
Definition filtered_right_join : PlanNode :=
  Filter (RowTest (λ r, bool_decide (hd 0 r ≠ 2)))
    (Join Right first_column_keys
       (Scan "T2" false false) (Scan "T1" true false)).

(** An IN subquery over a distributable table at the root of the plan. *)
Definition root_set_build : PlanNode :=
  SetBuild (Scan "T2" true false) Once 0%nat
    (Filter (InSet (hd 0) 0%nat) (Scan "T1" true false)).

(** A Left Join whose preserved input is a broadcast table. *)
Definition broadcast_left_join : PlanNode :=
  Join Left first_column_keys (Scan "T2" false false) (Scan "T1" true false).

Definition example_tables (t : Table) : list Row :=
  if decide (t = "T1") then [[1]; [4]; [3]; [2]]
  else if decide (t = "T2") then [[2]; [4]]
  else [].

(** Replica 0 holds the first two rows of every table, replica 1 the
    others. *)
Definition example_parts (i : nat) (t : Table) : list Row :=
  match i with
  | O => take 2 (example_tables t)
  | S O => drop 2 (example_tables t)
  | _ => []
  end.

(** A table with two rows that share the sort key, its second row held by
    replica 0 and its first row by replica 1, and an ORDER BY over it. *)
Definition tied_tables (t : Table) : list Row :=
  if decide (t = "T") then [[1; 1]; [1; 2]] else [].

Definition tied_parts (i : nat) (t : Table) : list Row :=
  match i with
  | O => drop 1 (tied_tables t)
  | S O => take 1 (tied_tables t)
  | _ => []
  end.

Definition tied_sort : PlanNode := Sort (hd 0) true (Scan "T" true false).

(** * Proofs *)

(** ** Induction on plans

    The induction principle below reaches the inputs of a Union. *)

Lemma PlanNode_nested_ind (P : PlanNode → Prop) :
  (∀ t d s, P (Scan t d s)) →
  (∀ q c, P c → P (Filter q c)) →
  (∀ f c, P c → P (Expression f c)) →
  (∀ k ks l r, P l → P r → P (Join k ks l r)) →
  (∀ g a fin c, P c → P (Aggregate g a fin c)) →
  (∀ a fin c, P c → P (MergeAggregate a fin c)) →
  (∀ k g c, P c → P (Sort k g c)) →
  (∀ k c, P c → P (MergeSort k c)) →
  (∀ inner pol h c, P inner → P c → P (SetBuild inner pol h c)) →
  (∀ cs, Forall P cs → P (Union cs)) →
  (∀ c, P c → P (FanOutReplica c)) →
  (∀ i, P (RemoteRead i)) →
  ∀ n, P n.
Proof.
  intros HScan HFilter HExpr HJoin HAgg HMAgg HSort HMSort HSet HUnion HFan HRem.
  fix IH 1. intros [t d s|q c|f c|k ks l r|g a fin c|a fin c|k g c|k c
                   |inner pol h c|cs|c|i].
  - apply HScan.
  - apply HFilter, IH.
  - apply HExpr, IH.
  - apply HJoin; apply IH.
  - apply HAgg, IH.
  - apply HMAgg, IH.
  - apply HSort, IH.
  - apply HMSort, IH.
  - apply HSet; apply IH.
  - apply HUnion. induction cs as [|c cs IHcs]; constructor; [apply IH|apply IHcs].
  - apply HFan, IH.
  - apply HRem.
Qed.

(** *** Longest common prefixes *)

Lemma common_prefix_l p q : common_prefix p q `prefix_of` p.
Proof.
  revert q. induction p as [|i p IH]; intros [|j q]; simpl;
    try apply prefix_nil.
  case_decide; [subst; by apply prefix_cons | apply prefix_nil].
Qed.

Lemma common_prefix_r p q : common_prefix p q `prefix_of` q.
Proof.
  revert q. induction p as [|i p IH]; intros [|j q]; simpl;
    try apply prefix_nil.
  case_decide; [subst; by apply prefix_cons | apply prefix_nil].
Qed.

Lemma lowest_common_ancestor_prefix ps p :
  p ∈ ps → lowest_common_ancestor ps `prefix_of` p.
Proof.
  destruct ps as [|p0 rest]; [by intros ?%elem_of_nil|]. simpl.
  revert p. induction rest as [|q rest IH]; intros p Hp; simpl.
  - apply list_elem_of_singleton in Hp as ->. done.
  - assert (Hcases : p = q ∨ p ∈ p0 :: rest).
    { apply elem_of_cons in Hp as [->|Hp]; [right; left|].
      apply elem_of_cons in Hp as [->|Hp]; [by left|right; by right]. }
    destruct Hcases as [->|Hin]; [apply common_prefix_l|].
    etrans; [apply common_prefix_r|by apply IH].
Qed.

Lemma lowest_common_ancestor_cons i ps :
  ps ≠ [] → lowest_common_ancestor (cons i <$> ps) = i :: lowest_common_ancestor ps.
Proof.
  destruct ps as [|p rest]; [done|intros _]. simpl.
  induction rest as [|q rest IH]; simpl; [done|].
  rewrite IH. simpl. by rewrite decide_True.
Qed.

Lemma lowest_common_ancestor_root ps : lowest_common_ancestor ([] :: ps) = [].
Proof.
  simpl. induction ps as [|q ps IH]; simpl; [done|].
  rewrite IH. by destruct q.
Qed.

Lemma lowest_common_ancestor_fork i j p q ps :
  i ≠ j → i :: p ∈ ps → j :: q ∈ ps → lowest_common_ancestor ps = [].
Proof.
  intros Hij Hp%lowest_common_ancestor_prefix Hq%lowest_common_ancestor_prefix.
  destruct (lowest_common_ancestor ps) as [|k a]; [done|].
  apply prefix_cons_inv_1 in Hp, Hq. congruence.
Qed.

Lemma topmost_join_prefix n p : topmost_join n p `prefix_of` p.
Proof.
  revert n. induction p as [|i p IH]; intros n.
  - destruct n; apply prefix_nil.
  - destruct n; simpl; try apply prefix_nil;
      try (destruct (_ !! i); [apply prefix_cons, IH|apply prefix_nil]).
Qed.

(** *** The cut found by the traversal *)

Lemma prefix_paths_head i pss p :
  p ∈ prefix_paths i pss → ∃ j q, p = j :: q ∧ (i ≤ j)%nat.
Proof.
  revert i. induction pss as [|ps pss IH]; intros i; simpl.
  - by intros ?%elem_of_nil.
  - intros [Hp|Hp]%elem_of_app.
    + apply list_elem_of_fmap in Hp as (q & -> & _). eauto.
    + apply IH in Hp as (j & q & -> & ?). exists j, q. split; [done|lia].
Qed.

Lemma elem_of_prefix_paths cfg cs i k c p :
  cs !! k = Some c → p ∈ merge_paths cfg c →
  (i + k)%nat :: p ∈ prefix_paths i (List.map (merge_paths cfg) cs).
Proof.
  revert i k. induction cs as [|c' cs IH]; intros i k; [done|].
  destruct k as [|k]; simpl.
  - intros [= ->] Hp. apply elem_of_app. left.
    rewrite Nat.add_0_r. by apply list_elem_of_fmap_2.
  - intros Hk Hp. apply elem_of_app. right.
    replace (i + S k)%nat with (S i + k)%nat by lia. by apply IH.
Qed.

Lemma join_cuts_found cfg cs i :
  Forall (cut_found cfg) cs →
  match join_cuts i (List.map (find_cut cfg) cs) with
  | None => prefix_paths i (List.map (merge_paths cfg) cs) = []
  | Some x =>
      prefix_paths i (List.map (merge_paths cfg) cs) ≠ []
      ∧ match lowest_common_ancestor
                (prefix_paths i (List.map (merge_paths cfg) cs)) with
        | [] => x = []
        | j :: q =>
            ∃ c, (i ≤ j)%nat ∧ cs !! (j - i)%nat = Some c
                 ∧ x = j :: topmost_join c q
        end
  end.
Proof.
  intros Hcs. revert i. induction Hcs as [|c cs Hc _ IH]; intros i; [done|].
  simpl. specialize (IH (S i)). unfold cut_found in Hc.
  destruct (find_cut cfg c) as [p|].
  - destruct Hc as [Hne ->].
    destruct (join_cuts (S i) (List.map (find_cut cfg) cs)) as [x|].
    + destruct IH as [Hrest _]. split.
      { intros [? _]%app_eq_nil. by destruct (merge_paths cfg c). }
      destruct (merge_paths cfg c) as [|p ps] eqn:Hmp; [done|].
      destruct (prefix_paths (S i) (List.map (merge_paths cfg) cs))
        as [|r rs] eqn:Hpp; [done|].
      assert (r ∈ prefix_paths (S i) (List.map (merge_paths cfg) cs)) as Hr
        by (rewrite Hpp; left).
      apply prefix_paths_head in Hr as (j & q & -> & Hj).
      rewrite (lowest_common_ancestor_fork i j p q); [done|lia|..].
      * apply elem_of_app. left. simpl. left.
      * apply elem_of_app. right. left.
    + rewrite IH, app_nil_r. split.
      { by destruct (merge_paths cfg c). }
      rewrite lowest_common_ancestor_cons by done.
      exists c. rewrite Nat.sub_diag. done.
  - rewrite Hc. simpl.
    destruct (join_cuts (S i) (List.map (find_cut cfg) cs)) as [x|]; [|done].
    destruct IH as [Hne IH]. split; [done|].
    destruct (lowest_common_ancestor _) as [|j q]; [done|].
    destruct IH as (c' & Hj & Hc' & ->). exists c'. split; [lia|].
    split; [|done]. replace (j - i)%nat with (S (j - S i)) by lia. done.
Qed.

Lemma topmost_join_Join k ks l r p : topmost_join (Join k ks l r) p = [].
Proof. by destruct p. Qed.

Lemma cut_found_unary cfg n c :
  classify cfg n = false →
  find_cut cfg n = cons O <$> find_cut cfg c →
  merge_paths cfg n
  = (if classify cfg n then [[]] else []) ++ (cons O <$> merge_paths cfg c) →
  (∀ p, topmost_join n (O :: p) = O :: topmost_join c p) →
  cut_found cfg c → cut_found cfg n.
Proof.
  intros Hcl Hfc Hmp Htop Hc. unfold cut_found in *.
  rewrite Hfc, Hmp, Hcl. simpl.
  destruct (find_cut cfg c) as [p|]; simpl.
  - destruct Hc as [Hne ->]. split; [by destruct (merge_paths cfg c)|].
    by rewrite lowest_common_ancestor_cons, Htop.
  - by rewrite Hc.
Qed.

Lemma cut_found_here cfg n :
  find_cut cfg n = Some [] →
  (∃ ps, merge_paths cfg n = [] :: ps) → cut_found cfg n.
Proof.
  intros Hfc [ps Hmp]. unfold cut_found. rewrite Hfc, Hmp.
  split; [done|]. rewrite lowest_common_ancestor_root. by destruct n.
Qed.

Lemma find_cut_found cfg n : cut_found cfg n.
Proof.
  induction n as [t d s|q c IH|f c IH|k ks l r IHl IHr|g a fin c IH|a fin c IH
                 |k g c IH|k c IH|inner pol h c _ IH|cs IH|c IH|i]
    using PlanNode_nested_ind.
  - done.
  - by apply (cut_found_unary cfg _ c).
  - by apply (cut_found_unary cfg _ c).
  - destruct (classify cfg (Join k ks l r)) eqn:Hcl.
    + apply cut_found_here; simpl in *; rewrite Hcl; eauto.
    + unfold cut_found in *. simpl in *. rewrite Hcl. simpl.
      rewrite topmost_join_Join.
      destruct (find_cut cfg l), (find_cut cfg r); simpl.
      * split; [|done]. destruct IHl as [? _]. by destruct (merge_paths cfg l).
      * split; [|done]. destruct IHl as [? _]. by destruct (merge_paths cfg l).
      * split; [|done]. destruct IHr as [? _]. rewrite IHl.
        by destruct (merge_paths cfg r).
      * by rewrite IHl, IHr.
  - destruct fin.
    + apply cut_found_here; simpl; eauto.
    + by apply (cut_found_unary cfg _ c).
  - by apply (cut_found_unary cfg _ c).
  - destruct g.
    + apply cut_found_here; simpl; eauto.
    + by apply (cut_found_unary cfg _ c).
  - by apply (cut_found_unary cfg _ c).
  - destruct (classify cfg (SetBuild inner pol h c)) eqn:Hcl.
    + apply cut_found_here; simpl in *; rewrite Hcl; eauto.
    + apply (cut_found_unary cfg _ c); try done; simpl in *; by rewrite Hcl.
  - pose proof (join_cuts_found cfg cs O IH) as Hj. unfold cut_found. simpl.
    destruct (join_cuts 0 (List.map (find_cut cfg) cs)) as [x|]; [|done].
    destruct Hj as [Hne Hj]. split; [done|].
    destruct (lowest_common_ancestor _) as [|j q]; [done|].
    destruct Hj as (c & _ & Hc & ->). rewrite Nat.sub_0_r in Hc.
    simpl. by rewrite Hc.
  - by apply (cut_found_unary cfg _ c).
  - done.
Qed.

(** The CutPoint is the lowest common ancestor of the merge-requiring
    nodes, raised to the first Join on the way to it. *)
Lemma cut_point_characterised cfg n :
  cut_point cfg n
  = topmost_join n (lowest_common_ancestor (merge_paths cfg n)).
Proof.
  pose proof (find_cut_found cfg n) as H. unfold cut_found, cut_point in *.
  destruct (find_cut cfg n) as [p|]; simpl.
  - by destruct H.
  - rewrite H. by destruct n.
Qed.

Lemma find_cut_None cfg n : find_cut cfg n = None ↔ merge_paths cfg n = [].
Proof.
  pose proof (find_cut_found cfg n) as H. unfold cut_found in H.
  destruct (find_cut cfg n); [|done]. destruct H. split; [done|congruence].
Qed.

(** The cut is at or above every merge-requiring node. *)
Lemma find_cut_above cfg n p :
  p ∈ merge_paths cfg n → ∃ c, find_cut cfg n = Some c ∧ c `prefix_of` p.
Proof.
  intros Hp. pose proof (find_cut_found cfg n) as H. unfold cut_found in H.
  destruct (find_cut cfg n) as [c|].
  - exists c. split; [done|]. destruct H as [_ ->].
    etrans; [apply topmost_join_prefix|by apply lowest_common_ancestor_prefix].
  - rewrite H in Hp. by apply elem_of_nil in Hp.
Qed.

Lemma merge_paths_node_at cfg n p m :
  node_at n p = Some m → classify cfg m = true → p ∈ merge_paths cfg n.
Proof.
  revert n. induction p as [|i p IH]; intros n; simpl.
  - intros [= ->] Hcl. destruct m; simpl in *; rewrite ?Hcl; try done; left.
  - destruct (children n !! i) as [c|] eqn:Hc; [|done].
    intros Hm Hcl. specialize (IH c Hm Hcl).
    destruct n; simpl in Hc; try done;
      try (destruct i; [|done]; injection Hc as ->).
    all: simpl; rewrite ?elem_of_app; try (right; by apply list_elem_of_fmap_2);
      try (by apply list_elem_of_fmap_2).
    + right. destruct i as [|[|i]]; try done; injection Hc as ->.
      * left. by apply list_elem_of_fmap_2.
      * right. by apply list_elem_of_fmap_2.
    + by apply (elem_of_prefix_paths cfg inputs 0 i c).
Qed.

(** ** Aggregation over partitions *)

Section aggregation.
Context (fns : AggFns) (Hlaw : agg_lawful fns).

Lemma lookup_add_state k s (m : gmap Z Row) k' :
  add_state fns k s m !! k'
  = if decide (k = k')
    then Some (match m !! k with
               | Some s' => agg_combine fns s s'
               | None => s
               end)
    else m !! k'.
Proof. unfold add_state. by rewrite lookup_partial_alter. Qed.

Lemma add_state_fresh k s (m : gmap Z Row) :
  m !! k = None → add_state fns k s m = <[k := s]> m.
Proof.
  intros Hk. apply map_eq. intros k'.
  rewrite lookup_add_state, lookup_insert, Hk. done.
Qed.

Lemma add_state_comm k1 s1 k2 s2 (m : gmap Z Row) :
  add_state fns k1 s1 (add_state fns k2 s2 m)
  = add_state fns k2 s2 (add_state fns k1 s1 m).
Proof.
  destruct Hlaw as [Hassoc Hcomm].
  apply map_eq. intros k. rewrite !lookup_add_state.
  destruct (decide (k1 = k)) as [->|H1], (decide (k2 = k)) as [->|H2];
    rewrite ?decide_True by done; rewrite ?decide_False by done; try done.
  destruct (m !! k) as [s|]; f_equal; [|apply Hcomm].
  by rewrite !Hassoc, (Hcomm s1 s2).
Qed.

Lemma add_state_merge k s (m1 m2 : gmap Z Row) :
  add_state fns k s (merge_states fns m1 m2)
  = merge_states fns (add_state fns k s m1) m2.
Proof.
  destruct Hlaw as [Hassoc Hcomm].
  apply map_eq. intros k'. unfold merge_states.
  rewrite lookup_add_state, !lookup_union_with, lookup_add_state.
  case_decide; [subst k'|done].
  destruct (m1 !! k), (m2 !! k); simpl; by rewrite ?Hassoc.
Qed.

Lemma group_states_app key state l1 l2 :
  group_states fns key state (l1 ++ l2)
  = merge_states fns (group_states fns key state l1)
      (group_states fns key state l2).
Proof.
  induction l1 as [|r l1 IH]; simpl.
  - unfold merge_states. by rewrite (left_id ∅ _).
  - by rewrite IH, add_state_merge.
Qed.

Lemma group_states_Permutation key state l1 l2 :
  l1 ≡ₚ l2 → group_states fns key state l1 = group_states fns key state l2.
Proof.
  induction 1 as [|r l1 l2 _ IH|r1 r2 l|l1 l2 l3 _ IH1 _ IH2]; simpl.
  - done.
  - by rewrite IH.
  - apply add_state_comm.
  - by rewrite IH1.
Qed.

(** Reading back the partial states an aggregation emitted. *)
Lemma group_states_emitted (m : gmap Z Row) :
  group_states fns (hd 0) (drop 1) (emit_groups fns false m) = m.
Proof.
  induction m as [|k s m Hk IH] using map_ind.
  - unfold emit_groups. by rewrite map_to_list_empty.
  - unfold emit_groups in *.
    rewrite (group_states_Permutation _ _ _
               ((k :: s) :: ((λ kv : Z * Row, fst kv :: snd kv)
                               <$> map_to_list m))).
    + simpl. rewrite IH. by apply add_state_fresh.
    + by rewrite map_to_list_insert.
Qed.

(** The states merged from the partial rows of the partitions are the
    states of the rows of all partitions. *)
Lemma group_states_partials key parts :
  group_states fns (hd 0) (drop 1)
    (concat (aggregate_rows key fns false <$> parts))
  = group_states fns key (agg_state fns) (concat parts).
Proof.
  induction parts as [|p parts IH]; [done|].
  rewrite fmap_cons. cbn [concat].
  rewrite !group_states_app, IH. unfold aggregate_rows.
  by rewrite group_states_emitted.
Qed.

Lemma merge_aggregate_partitions key fin parts rows :
  rows ≡ₚ concat parts →
  merge_aggregate_rows fns fin
    (concat (aggregate_rows key fns false <$> parts))
  = aggregate_rows key fns fin rows.
Proof.
  intros Hrows. unfold merge_aggregate_rows.
  rewrite group_states_partials. unfold aggregate_rows.
  by rewrite (group_states_Permutation _ _ _ _ Hrows).
Qed.
End aggregation.

Section sorting.
Context (k : Row → Z).

Global Instance by_key_total : Total (by_key k).
Proof. intros a b. unfold by_key. lia. Qed.

Global Instance by_key_trans : Transitive (by_key k).
Proof. intros a b c. unfold by_key. lia. Qed.

Lemma sort_rows_sorted rows : Sorted (by_key k) (sort_rows k rows).
Proof. apply (Sorted_merge_sort (by_key k)). Qed.

Lemma sort_rows_Permutation rows : sort_rows k rows ≡ₚ rows.
Proof. apply (merge_sort_Permutation (by_key k)). Qed.

Lemma merge_streams_Permutation streams :
  merge_streams k streams ≡ₚ concat streams.
Proof.
  induction streams as [|s streams IH]; simpl; [done|].
  by rewrite (merge_Permutation (by_key k)), IH.
Qed.

Lemma merge_streams_sorted streams :
  Forall (Sorted (by_key k)) streams → Sorted (by_key k) (merge_streams k streams).
Proof.
  induction 1; simpl; [constructor|].
  by apply (Sorted_list_merge (by_key k)).
Qed.

(** Two sorted lists of the same rows show the same sequence of keys. *)
Lemma sorted_same_keys l1 l2 :
  Sorted (by_key k) l1 → Sorted (by_key k) l2 → l1 ≡ₚ l2 →
  k <$> l1 = k <$> l2.
Proof.
  intros H1 H2 Hp. apply (Sorted_unique Z.le).
  - by apply (Sorted_fmap k (by_key k) Z.le).
  - by apply (Sorted_fmap k (by_key k) Z.le).
  - by rewrite Hp.
Qed.

Lemma merge_sorted_partitions parts rows :
  rows ≡ₚ concat parts →
  let merged := merge_streams k (sort_rows k <$> parts) in
  Sorted (by_key k) merged
  ∧ merged ≡ₚ sort_rows k rows
  ∧ k <$> merged = k <$> sort_rows k rows.
Proof.
  intros Hrows merged.
  assert (Sorted (by_key k) merged) as Hs.
  { apply merge_streams_sorted, Forall_fmap, Forall_forall.
    intros p _. apply sort_rows_sorted. }
  assert (merged ≡ₚ sort_rows k rows) as Hp.
  { unfold merged. rewrite merge_streams_Permutation, sort_rows_Permutation, Hrows.
    clear. induction parts as [|p ps IH]; [done|].
    rewrite fmap_cons. cbn [concat]. by rewrite sort_rows_Permutation, IH. }
  split; [done|]. split; [done|].
  apply sorted_same_keys; [done|apply sort_rows_sorted|done].
Qed.
End sorting.

(** ** Evaluation of source plans and replica subplans *)

Lemma forallb_Forall {A} (f : A → bool) (l : list A) :
  forallb f l = true → Forall (λ x, f x = true) l.
Proof.
  induction l as [|x l IH]; simpl; [constructor|].
  intros [? ?]%andb_true_iff. constructor; auto.
Qed.

(** A source plan reads whole tables only. *)
Lemma eval_source_tables n :
  source_plan n = true →
  ∀ s1 s2 sets, (∀ t, tables s1 t = tables s2 t) →
  eval s1 sets n = eval s2 sets n.
Proof.
  induction n as [t d s|q c IH|f c IH|k ks l r IHl IHr|g a fin c IH|a fin c IH
                 |k g c IH|k c IH|inner pol h c IHi IH|cs IH|c IH|i]
    using PlanNode_nested_ind; simpl; try done; intros Hs s1 s2 sets Ht.
  - destruct s; [done|apply Ht].
  - by rewrite (IH Hs s1 s2).
  - by rewrite (IH Hs s1 s2).
  - apply andb_true_iff in Hs as [Hl Hr].
    by rewrite (IHl Hl s1 s2), (IHr Hr s1 s2).
  - by rewrite (IH Hs s1 s2).
  - by rewrite (IH Hs s1 s2).
  - apply andb_true_iff in Hs as [Hi Hc].
    by rewrite (IHi Hi s1 s2), (IH Hc s1 s2).
  - f_equal. apply forallb_Forall in Hs.
    induction IH as [|c cs Hc _ IHcs]; simpl; [done|].
    apply Forall_cons in Hs as [Hsc Hscs].
    f_equal; [by apply Hc|by apply IHcs].
Qed.

(** Without a distributable scan there is nothing to assign. *)
Lemma assign_slots_broadcast n :
  broadcast_only n = true → assign_slots n = n.
Proof.
  unfold broadcast_only.
  induction n as [t d s|q c IH|f c IH|k ks l r IHl IHr|g a fin c IH|a fin c IH
                 |k g c IH|k c IH|inner pol h c IHi IH|cs IH|c IH|i]
    using PlanNode_nested_ind; simpl; try done;
    intros [Hs Hd%negb_true_iff]%andb_true_iff.
  - destruct d, s; done.
  - rewrite IH; [done|]. by rewrite Hs, Hd.
  - rewrite IH; [done|]. by rewrite Hs, Hd.
  - apply andb_true_iff in Hs as [Hl Hr].
    apply orb_false_iff in Hd as [Hdl Hdr].
    rewrite IHl, IHr; [done|by rewrite Hr, Hdr|by rewrite Hl, Hdl].
  - rewrite IH; [done|]. by rewrite Hs, Hd.
  - rewrite IH; [done|]. by rewrite Hs, Hd.
  - apply andb_true_iff in Hs as [Hi Hc].
    apply orb_false_iff in Hd as [Hdi Hdc].
    unfold resolved_policy. rewrite Hdi, IH; [done|by rewrite Hc, Hdc].
  - f_equal. apply forallb_Forall in Hs.
    induction IH as [|c cs Hc _ IHcs]; simpl; [done|].
    apply Forall_cons in Hs as [Hsc Hscs]. simpl in Hd.
    apply orb_false_iff in Hd as [Hdc Hdcs].
    f_equal; [apply Hc; by rewrite Hsc, Hdc|by apply IHcs].
Qed.

(** The replica subplan of a source plan reads tables and slices only. *)
Lemma eval_assigned_site n :
  source_plan n = true →
  ∀ s1 s2 sets,
    (∀ t, tables s1 t = tables s2 t) → (∀ t, slice s1 t = slice s2 t) →
    eval s1 sets (assign_slots n) = eval s2 sets (assign_slots n).
Proof.
  induction n as [t d s|q c IH|f c IH|k ks l r IHl IHr|g a fin c IH|a fin c IH
                 |k g c IH|k c IH|inner pol h c IHi IH|cs IH|c IH|i]
    using PlanNode_nested_ind; simpl; try done; intros Hs s1 s2 sets Ht Hp.
  - destruct d; [apply Hp|apply Ht].
  - by rewrite (IH Hs s1 s2).
  - by rewrite (IH Hs s1 s2).
  - apply andb_true_iff in Hs as [Hl Hr].
    by rewrite (IHl Hl s1 s2), (IHr Hr s1 s2).
  - by rewrite (IH Hs s1 s2).
  - by rewrite (IH Hs s1 s2).
  - apply andb_true_iff in Hs as [Hi Hc].
    by rewrite (eval_source_tables inner Hi s1 s2), (IH Hc s1 s2).
  - f_equal. apply forallb_Forall in Hs.
    induction IH as [|c cs Hc _ IHcs]; simpl; [done|].
    apply Forall_cons in Hs as [Hsc Hscs].
    f_equal; [by apply Hc|by apply IHcs].
Qed.

(** ** Additive plans *)

Lemma additive_source_plan n : additive n = true → source_plan n = true.
Proof.
  induction n as [t d s|q c IH|f c IH|k ks l r IHl IHr|g a fin c IH|a fin c IH
                 |k g c IH|k c IH|inner pol h c _ IH|cs IH|c IH|i]
    using PlanNode_nested_ind; simpl; try done.
  - by intros [_ ?]%andb_true_iff.
  - unfold broadcast_only. destruct k; try done.
    + intros [[H1 H2]%andb_true_iff|[H1 H2]%andb_true_iff]%orb_true_iff;
        apply andb_true_iff.
      * apply andb_true_iff in H2 as [? _]. auto.
      * apply andb_true_iff in H1 as [? _]. auto.
    + intros [H1 H2]%andb_true_iff. apply andb_true_iff.
      apply andb_true_iff in H2 as [? _]. auto.
    + intros [H1 H2]%andb_true_iff. apply andb_true_iff.
      apply andb_true_iff in H1 as [? _]. auto.
  - intros [? ?]%andb_true_iff. apply andb_true_iff. auto.
  - destruct cs as [|c cs]; [done|]. intros Ha.
    apply forallb_Forall in Ha. revert Ha IH. generalize (c :: cs). clear.
    intros cs Ha IH. induction IH as [|c cs Hc _ IHcs]; [done|].
    apply Forall_cons in Ha as [? ?]. simpl. apply andb_true_iff. auto.
Qed.

Lemma additive_distributable n :
  additive n = true → contains_distributable n = true.
Proof.
  induction n as [t d s|q c IH|f c IH|k ks l r IHl IHr|g a fin c IH|a fin c IH
                 |k g c IH|k c IH|inner pol h c _ IH|cs IH|c IH|i]
    using PlanNode_nested_ind; simpl; try done.
  - by intros [? _]%andb_true_iff.
  - destruct k; try done.
    + intros [[H1 _]%andb_true_iff|[_ H2]%andb_true_iff]%orb_true_iff;
        apply orb_true_iff; auto.
    + intros [H1 _]%andb_true_iff. apply orb_true_iff; auto.
    + intros [_ H2]%andb_true_iff. apply orb_true_iff; auto.
  - intros [_ ?]%andb_true_iff. apply orb_true_iff. auto.
  - destruct cs as [|c cs]; [done|]. intros [Hc _]%andb_true_iff.
    apply Forall_cons in IH as [IHc _]. simpl. by rewrite (IHc Hc).
Qed.

(** Rows of lists taken apart and put together again. *)
Lemma concat_fmap_app {A B} (f g : A → list B) (l : list A) :
  concat ((λ x, f x ++ g x) <$> l) ≡ₚ concat (f <$> l) ++ concat (g <$> l).
Proof.
  induction l as [|x l IH]; csimpl; [done|].
  rewrite IH, <-!(assoc_L (++)). f_equiv.
  by rewrite !(assoc_L (++)), (comm (++) (g x)).
Qed.

Lemma bind_pointwise_Permutation {A B} (f g : A → list B) (l : list A) :
  (∀ x, f x ≡ₚ g x) → l ≫= f ≡ₚ l ≫= g.
Proof.
  intros Hfg. induction l as [|x l IH]; csimpl; [done|]. by rewrite Hfg, IH.
Qed.

Lemma left_row_join_inner ks r a :
  left_row_join false ks r a
  = (λ b, a ++ b) <$> filter (λ b, key_match ks a b) r.
Proof. unfold left_row_join. by destruct (filter _ r). Qed.

Lemma filter_nil_Permutation {A} (P : A → Prop) `{∀ x, Decision (P x)}
    (l l' : list A) :
  l ≡ₚ l' → filter P l = [] → filter P l' = [].
Proof.
  intros Hl Hnil. apply Permutation_nil_r. by rewrite <-Hl, Hnil.
Qed.

Lemma left_row_join_Permutation pad ks r r' a :
  r ≡ₚ r' → left_row_join pad ks r a ≡ₚ left_row_join pad ks r' a.
Proof.
  intros Hr. unfold left_row_join.
  pose proof (filter_Permutation (λ b, key_match ks a b) r r' Hr) as Hf.
  destruct (filter _ r) as [|b ms] eqn:Hm.
  - apply Permutation_nil_l in Hf. by rewrite <-Hf.
  - destruct (filter _ r') as [|b' ms'] eqn:Hm'.
    + symmetry in Hf. by apply Permutation_nil_l in Hf.
    + by rewrite Hf.
Qed.

Lemma right_row_join_Permutation ks l l' b :
  l ≡ₚ l' → right_row_join ks l b ≡ₚ right_row_join ks l' b.
Proof.
  intros Hl. unfold right_row_join.
  pose proof (filter_Permutation (λ a, key_match ks a b) l l' Hl) as Hf.
  destruct (filter _ l) as [|a ms] eqn:Hm.
  - apply Permutation_nil_l in Hf. by rewrite <-Hf.
  - destruct (filter _ l') as [|a' ms'] eqn:Hm'.
    + symmetry in Hf. by apply Permutation_nil_l in Hf.
    + by rewrite Hf.
Qed.

Lemma unmatched_right_Permutation ks l l' r r' :
  l ≡ₚ l' → r ≡ₚ r' → unmatched_right ks l r ≡ₚ unmatched_right ks l' r'.
Proof.
  intros Hl Hr. unfold unmatched_right. f_equiv. rewrite <-Hr.
  apply reflexive_eq, list_filter_iff. intros b. split; intros Hnil.
  - by apply (filter_nil_Permutation _ l l').
  - by apply (filter_nil_Permutation _ l' l).
Qed.

Lemma join_rows_Permutation k ks l l' r r' :
  l ≡ₚ l' → r ≡ₚ r' → join_rows k ks l r ≡ₚ join_rows k ks l' r'.
Proof.
  intros Hl Hr. destruct k; simpl.
  - rewrite Hl. apply bind_pointwise_Permutation. intros a.
    by apply left_row_join_Permutation.
  - rewrite Hl. apply bind_pointwise_Permutation. intros a.
    by apply left_row_join_Permutation.
  - rewrite Hr. apply bind_pointwise_Permutation. intros b.
    by apply right_row_join_Permutation.
  - f_equiv; [|by apply unmatched_right_Permutation].
    rewrite Hl. apply bind_pointwise_Permutation. intros a.
    by apply left_row_join_Permutation.
Qed.

Section distribution.
Context (tbl : Table → list Row) (parts : nat → Table → list Row).
Context (replicas : list nat).
Hypothesis Hparts : ∀ t, concat ((λ i, parts i t) <$> replicas) ≡ₚ tbl t.

Lemma concat_distribute (F : list Row → list Row) (e : nat → list Row) :
  F [] = [] → (∀ a b, F (a ++ b) = F a ++ F b) →
  concat ((λ i, F (e i)) <$> replicas) = F (concat (e <$> replicas)).
Proof using Type.
  intros Hnil Happ. clear Hparts.
  induction replicas as [|i rest IH]; csimpl; [done|].
  by rewrite Happ, IH.
Qed.

(** An Inner Join of broadcast rows with the rows of the replicas. *)
Lemma inner_join_distribute ks (rows : list Row) (e : nat → list Row) :
  concat ((λ i, rows ≫= left_row_join false ks (e i)) <$> replicas)
  ≡ₚ rows ≫= left_row_join false ks (concat (e <$> replicas)).
Proof using Type.
  clear Hparts. induction rows as [|a rows IH]; csimpl.
  - by induction replicas as [|i rest IHr].
  - rewrite concat_fmap_app, IH. f_equiv.
    rewrite left_row_join_inner.
    rewrite <-(concat_distribute
                 (λ r, (λ b, a ++ b) <$> filter (λ b, key_match ks a b) r) e);
      [|done|intros; by rewrite filter_app, fmap_app].
    apply reflexive_eq. f_equal. apply list_fmap_ext. intros ? i _.
    apply left_row_join_inner.
Qed.

(** What the replicas yield for the replica subplan of an additive plan
    adds up to what a single node yields for the plan. *)
Lemma additive_linear n :
  additive n = true →
  ∀ sets,
    concat ((λ i, eval (replica_site tbl parts i) sets (assign_slots n))
              <$> replicas)
    ≡ₚ eval (single_site tbl) sets n.
Proof.
  induction n as [t d s|q c IH|f c IH|k ks l r IHl IHr|g a fin c IH|a fin c IH
                 |k g c IH|k c IH|inner pol h c IHi IH|cs IH|c IH|i]
    using PlanNode_nested_ind; simpl; try done; intros Hp sets.
  - apply andb_true_iff in Hp as [-> ->%negb_true_iff]. apply Hparts.
  - rewrite (concat_distribute (filter (λ r, pred_holds sets q r))
               (λ i, eval (replica_site tbl parts i) sets (assign_slots c)));
      [|done|intros; apply filter_app].
    by rewrite (IH Hp).
  - rewrite (concat_distribute (fmap f)
               (λ i, eval (replica_site tbl parts i) sets (assign_slots c)));
      [|done|intros; apply fmap_app].
    by rewrite (IH Hp).
  - assert (∀ pad, additive l = true → broadcast_only r = true →
              concat ((λ i, eval (replica_site tbl parts i) sets (assign_slots l)
                            ≫= left_row_join pad ks
                                 (eval (replica_site tbl parts i) sets
                                    (assign_slots r))) <$> replicas)
              ≡ₚ eval (single_site tbl) sets l
                  ≫= left_row_join pad ks (eval (single_site tbl) sets r))
      as Hleft.
    { intros pad H1 H2. rewrite (assign_slots_broadcast r H2).
      apply andb_true_iff in H2 as [Hsr _].
      rewrite (list_fmap_ext _
                 (λ i, eval (replica_site tbl parts i) sets (assign_slots l)
                       ≫= left_row_join pad ks (eval (single_site tbl) sets r))).
      2:{ intros ? i _. simpl.
          by rewrite (eval_source_tables r Hsr (replica_site tbl parts i)
                        (single_site tbl)). }
      rewrite (concat_distribute
                 (λ rows, rows ≫= left_row_join pad ks
                                    (eval (single_site tbl) sets r))
                 (λ i, eval (replica_site tbl parts i) sets (assign_slots l)));
        [|done|intros; apply bind_app].
      simpl. by rewrite (IHl H1). }
    destruct k; try done.
    + apply orb_true_iff in Hp as [[H1 H2]%andb_true_iff|[H1 H2]%andb_true_iff].
      * by apply Hleft.
      * rewrite (assign_slots_broadcast l H1).
        apply andb_true_iff in H1 as [Hsl _].
        rewrite (list_fmap_ext _
                   (λ i, eval (single_site tbl) sets l
                         ≫= left_row_join false ks
                              (eval (replica_site tbl parts i) sets
                                 (assign_slots r)))).
        2:{ intros ? i _. simpl.
            by rewrite (eval_source_tables l Hsl (replica_site tbl parts i)
                          (single_site tbl)). }
        rewrite (inner_join_distribute ks _
                   (λ i, eval (replica_site tbl parts i) sets (assign_slots r))).
        apply bind_pointwise_Permutation. intros a.
        apply left_row_join_Permutation, (IHr H2).
    + apply andb_true_iff in Hp as [H1 H2]. by apply Hleft.
    + apply andb_true_iff in Hp as [H1 H2].
      rewrite (assign_slots_broadcast l H1).
      apply andb_true_iff in H1 as [Hsl _].
      rewrite (list_fmap_ext _
                 (λ i, eval (replica_site tbl parts i) sets (assign_slots r)
                       ≫= right_row_join ks (eval (single_site tbl) sets l))).
      2:{ intros ? i _. simpl.
          by rewrite (eval_source_tables l Hsl (replica_site tbl parts i)
                        (single_site tbl)). }
      rewrite (concat_distribute
                 (λ rows, rows ≫= right_row_join ks
                                    (eval (single_site tbl) sets l))
                 (λ i, eval (replica_site tbl parts i) sets (assign_slots r)));
        [|done|intros; apply bind_app].
      simpl. by rewrite (IHr H2).
  - rewrite sort_rows_Permutation, <-(IH Hp sets).
    clear. induction replicas as [|i rest IHis]; csimpl; [done|].
    by rewrite sort_rows_Permutation, IHis.
  - apply andb_true_iff in Hp as [Hi Hp].
    rewrite <-(IH Hp). apply reflexive_eq. f_equal.
    apply list_fmap_ext. intros ? i _.
    by rewrite (eval_source_tables inner Hi (replica_site tbl parts i)
                  (single_site tbl)).
  - assert (forallb additive cs = true) as Ha by (by destruct cs).
    clear Hp. apply forallb_Forall in Ha.
    induction IH as [|c cs Hc _ IHcs]; simpl.
    + clear. by induction replicas as [|i rest IHr].
    + apply Forall_cons in Ha as [Hac Hacs].
      rewrite concat_fmap_app, (Hc Hac), (IHcs Hacs). done.
Qed.
End distribution.

(** ** The node at the cut *)

Lemma source_plan_children n i c :
  source_plan n = true → children n !! i = Some c → source_plan c = true.
Proof.
  destruct n; simpl; try done; intros Hs Hc;
    try (destruct i; [|done]; by injection Hc as <-).
  - apply andb_true_iff in Hs as [Hl Hr].
    destruct i as [|[|i]]; try done; by injection Hc as <-.
  - apply andb_true_iff in Hs as [_ Hs].
    destruct i; [|done]. by injection Hc as <-.
  - apply forallb_Forall in Hs.
    by apply (proj1 (Forall_lookup _ _) Hs i c).
Qed.

Lemma source_plan_node_at n p m :
  source_plan n = true → node_at n p = Some m → source_plan m = true.
Proof.
  revert n. induction p as [|i p IH]; intros n Hs; simpl.
  - by intros [= <-].
  - destruct (children n !! i) as [c|] eqn:Hc; [|done].
    apply IH. by apply (source_plan_children n i c).
Qed.

Lemma lawful_aggregates_children n i c :
  lawful_aggregates n → children n !! i = Some c → lawful_aggregates c.
Proof.
  destruct n; simpl; try done; intros Hs Hc;
    try (destruct i; [|done]; injection Hc as <-; tauto).
  - destruct i as [|[|i]]; try done; injection Hc as <-; tauto.
  - revert i Hc. induction inputs as [|x xs IH]; intros i Hc; [done|].
    destruct Hs as [Hx Hxs]. destruct i; simpl in Hc.
    + by injection Hc as <-.
    + by apply (IH Hxs i).
Qed.

Lemma lawful_aggregates_node_at n p m :
  lawful_aggregates n → node_at n p = Some m → lawful_aggregates m.
Proof.
  revert n. induction p as [|i p IH]; intros n Hs; simpl.
  - by intros [= <-].
  - destruct (children n !! i) as [c|] eqn:Hc; [|done].
    apply IH. by apply (lawful_aggregates_children n i c).
Qed.

Section fan_out.
Context (cfg : Config) (tbl : Table → list Row).
Context (parts : nat → Table → list Row).
Hypothesis Hparts : partitioned (remote_replicas cfg) tbl parts.

Lemma remote_streams r sets (l : list nat) :
  eval (coordinator_site tbl parts r) sets <$> (RemoteRead <$> l)
  = (λ i, eval (replica_site tbl parts i) sets r) <$> l.
Proof using Type.
  induction l as [|i l IH]; [done|]. rewrite !fmap_cons. by rewrite IH.
Qed.

(** The branches of the fan-out deliver what the replicas yield: the
    local branch is replica 0. *)
Lemma fan_out_streams r sets :
  eval (coordinator_site tbl parts r) sets r
  = eval (replica_site tbl parts O) sets r →
  eval (coordinator_site tbl parts r) sets
    <$> (r :: (RemoteRead <$> seq 1 (remote_replicas cfg)))
  = (λ i, eval (replica_site tbl parts i) sets r)
      <$> seq 0 (S (remote_replicas cfg)).
Proof using Type.
  intros Hlocal. change (seq 0 (S (remote_replicas cfg)))
    with (O :: seq 1 (remote_replicas cfg)).
  rewrite !fmap_cons. by rewrite Hlocal, remote_streams.
Qed.

Lemma local_branch_assigned n :
  source_plan n = true →
  ∀ r sets, eval (coordinator_site tbl parts r) sets (assign_slots n)
            = eval (replica_site tbl parts O) sets (assign_slots n).
Proof using Type. intros Hs r sets. by apply eval_assigned_site. Qed.

Lemma eval_fan_out site sets cs :
  eval site sets (FanOutReplica (Union cs)) = concat (eval site sets <$> cs).
Proof using Type. done. Qed.

Lemma eval_merge_sort_fan_out site sets k cs :
  eval site sets (MergeSort k (FanOutReplica (Union cs)))
  = merge_streams k (eval site sets <$> cs).
Proof using Type. done. Qed.

(** The fan-out over the replica subplan of an additive plan. *)
Lemma fan_out_additive c sets :
  additive c = true →
  eval (coordinator_site tbl parts (assign_slots c)) sets
    (fan_out cfg (assign_slots c))
  ≡ₚ eval (single_site tbl) sets c.
Proof.
  intros Ha. unfold fan_out. rewrite eval_fan_out, fan_out_streams.
  - by apply (additive_linear tbl parts (seq 0 (S (remote_replicas cfg)))).
  - apply local_branch_assigned. by apply additive_source_plan.
Qed.

(** A finalized Aggregate at the cut. *)
Lemma aggregate_cut g a c sets :
  additive c = true → agg_lawful a →
  eval (coordinator_site tbl parts (Aggregate g a false (assign_slots c))) sets
    (MergeAggregate a true
       (fan_out cfg (Aggregate g a false (assign_slots c))))
  = eval (single_site tbl) sets (Aggregate g a true c).
Proof.
  intros Ha Hlaw. unfold fan_out.
  change (eval ?s ?e (MergeAggregate ?f ?fin ?x))
    with (merge_aggregate_rows f fin (eval s e x)).
  rewrite eval_fan_out, fan_out_streams.
  - change (λ i, eval (replica_site tbl parts i) sets
                   (Aggregate g a false (assign_slots c)))
      with (aggregate_rows g a false
              ∘ (λ i, eval (replica_site tbl parts i) sets (assign_slots c))).
    rewrite list_fmap_compose.
    apply merge_aggregate_partitions; [done|]. symmetry.
    by apply (additive_linear tbl parts (seq 0 (S (remote_replicas cfg)))).
  - change (eval ?s ?e (Aggregate ?k ?f ?fin ?x))
      with (aggregate_rows k f fin (eval s e x)).
    f_equal. apply local_branch_assigned. by apply additive_source_plan.
Qed.

(** A global Sort at the cut. *)
Lemma sort_cut k c sets :
  additive c = true →
  let merged :=
    eval (coordinator_site tbl parts (Sort k false (assign_slots c))) sets
      (MergeSort k (fan_out cfg (Sort k false (assign_slots c)))) in
  Sorted (by_key k) merged
  ∧ merged ≡ₚ eval (single_site tbl) sets (Sort k true c)
  ∧ k <$> merged = k <$> eval (single_site tbl) sets (Sort k true c).
Proof.
  intros Ha. unfold fan_out. cbv zeta.
  rewrite eval_merge_sort_fan_out, fan_out_streams.
  - change (λ i, eval (replica_site tbl parts i) sets
                   (Sort k false (assign_slots c)))
      with (sort_rows k
              ∘ (λ i, eval (replica_site tbl parts i) sets (assign_slots c))).
    rewrite list_fmap_compose.
    apply (merge_sorted_partitions k
             ((λ i, eval (replica_site tbl parts i) sets (assign_slots c))
                <$> seq 0 (S (remote_replicas cfg)))
             (eval (single_site tbl) sets c)).
    symmetry.
    by apply (additive_linear tbl parts (seq 0 (S (remote_replicas cfg)))).
  - change (eval ?s ?e (Sort ?k ?g ?x)) with (sort_rows k (eval s e x)).
    f_equal. apply local_branch_assigned. by apply additive_source_plan.
Qed.

(** A Join at the cut stays on the coordinator, above the fan-out over its
    additive input. *)
Lemma join_cut_left k ks l r sets :
  additive l = true → broadcast_only r = true →
  eval (coordinator_site tbl parts (assign_slots l)) sets
    (Join k ks (fan_out cfg (assign_slots l)) r)
  ≡ₚ eval (single_site tbl) sets (Join k ks l r).
Proof.
  intros Ha [Hs _]%andb_true_iff.
  change (eval ?s ?e (Join ?k ?ks ?x ?y))
    with (join_rows k ks (eval s e x) (eval s e y)).
  apply join_rows_Permutation; [by apply fan_out_additive|].
  apply reflexive_eq. by apply eval_source_tables.
Qed.

Lemma join_cut_right k ks l r sets :
  broadcast_only l = true → additive r = true →
  eval (coordinator_site tbl parts (assign_slots r)) sets
    (Join k ks l (fan_out cfg (assign_slots r)))
  ≡ₚ eval (single_site tbl) sets (Join k ks l r).
Proof.
  intros [Hs _]%andb_true_iff Ha.
  change (eval ?s ?e (Join ?k ?ks ?x ?y))
    with (join_rows k ks (eval s e x) (eval s e y)).
  apply join_rows_Permutation; [|by apply fan_out_additive].
  apply reflexive_eq. by apply eval_source_tables.
Qed.

(** A SetBuild at the cut builds its set on the coordinator; the set
    reaches every branch of the fan-out below it. *)
Lemma set_build_cut inner pol h c sets :
  source_plan inner = true → additive c = true →
  eval (coordinator_site tbl parts (assign_slots c)) sets
    (SetBuild inner pol h (fan_out cfg (assign_slots c)))
  ≡ₚ eval (single_site tbl) sets (SetBuild inner pol h c).
Proof.
  intros Hs Ha.
  change (eval ?s ?e (SetBuild ?i ?p ?hd ?x))
    with (eval s (<[hd := List.hd 0 <$> eval s e i]> e) x).
  rewrite (eval_source_tables inner Hs
             (coordinator_site tbl parts (assign_slots c)) (single_site tbl))
    by done.
  by apply fan_out_additive.
Qed.
End fan_out.

(** ** The steps above the cut *)

Lemma find_cut_classify cfg n :
  classify cfg n = true → find_cut cfg n = Some [].
Proof. intros Hcl. destruct n; simpl in *; by rewrite ?Hcl. Qed.

Lemma join_cuts_lookup i found j p :
  join_cuts i found = Some (j :: p) →
  (i ≤ j)%nat ∧ found !! (j - i)%nat = Some (Some p).
Proof.
  revert i. induction found as [|r rest IH]; intros i; simpl; [done|].
  destruct r as [q|].
  - destruct (join_cuts (S i) rest); [done|].
    intros [= <- <-]. by rewrite Nat.sub_diag.
  - intros [Hle Hl]%IH. split; [lia|].
    by replace (j - i)%nat with (S (j - S i)) by lia.
Qed.

Section cut_context.
Context (cfg : Config) (site_c site_1 : Site).
Hypothesis Htables : ∀ t, tables site_c t = tables site_1 t.
Context (Rel : relation (list Row)).
Hypothesis Rel_refl : ∀ l, Rel l l.
Hypothesis Rel_filter : ∀ sets q l l',
  Rel l l' →
  Rel (filter (λ r, pred_holds sets q r) l) (filter (λ r, pred_holds sets q r) l').
Hypothesis Rel_fmap : ∀ (f : Row → Row) l l', Rel l l' → Rel (f <$> l) (f <$> l').
Hypothesis Rel_aggregate : ∀ g a fin l l',
  agg_lawful a → Rel l l' →
  Rel (aggregate_rows g a fin l) (aggregate_rows g a fin l').
Hypothesis Rel_sort : ∀ k l l', Rel l l' → Rel (sort_rows k l) (sort_rows k l').
Hypothesis Rel_app : ∀ a a' b b', Rel a a' → Rel b b' → Rel (a ++ b) (a' ++ b').

(** The inputs of a Union, one of them replaced. *)
Lemma union_context sets cs : ∀ j c c',
  forallb source_plan cs = true → cs !! j = Some c →
  Rel (eval site_c sets c') (eval site_1 sets c) →
  Rel (concat (List.map (eval site_c sets) (<[j := c']> cs)))
      (concat (List.map (eval site_1 sets) cs)).
Proof using Htables Rel_refl Rel_app.
  induction cs as [|x cs IH]; intros j c c' Hs Hj Hc; [done|].
  simpl in Hs. apply andb_true_iff in Hs as [Hx Hcs].
  destruct j as [|j]; simpl in *.
  - injection Hj as ->. apply Rel_app; [done|].
    assert (List.map (eval site_c sets) cs = List.map (eval site_1 sets) cs)
      as ->; [|apply Rel_refl].
    apply (list_fmap_ext (eval site_c sets) (eval site_1 sets) cs).
    intros i y Hy. apply eval_source_tables; [|done].
    apply forallb_Forall in Hcs.
    by apply (proj1 (Forall_lookup _ _) Hcs i y).
  - apply Rel_app; [|by apply (IH j c c')].
    rewrite (eval_source_tables x Hx site_c site_1) by done. apply Rel_refl.
Qed.

(** The steps above the cut run on the coordinator as they do on a single
    node: what is related at the cut is related at the root. *)
Lemma cut_context n : ∀ p m new,
  source_plan n = true → lawful_aggregates n →
  find_cut cfg n = Some p → node_at n p = Some m →
  (∀ sets, Rel (eval site_c sets new) (eval site_1 sets m)) →
  ∀ sets, Rel (eval site_c sets (replace_at n p new)) (eval site_1 sets n).
Proof using All.
  induction n as [t d s|q c IH|f c IH|k ks l r _ _|g a fin c IH|a fin c IH
                 |k g c IH|k c IH|inner pol h c _ IH|cs IH|c IH|i]
    using PlanNode_nested_ind; intros p m new Hs Hl Hcut Hm Hnew sets;
    try done.
  - simpl in Hcut. destruct (find_cut cfg c) as [p'|] eqn:Hc; [|done].
    injection Hcut as <-. simpl in *. apply Rel_filter. by apply (IH p' m).
  - simpl in Hcut. destruct (find_cut cfg c) as [p'|] eqn:Hc; [|done].
    injection Hcut as <-. simpl in *. apply Rel_fmap. by apply (IH p' m).
  - assert (p = []) as ->.
    { simpl in Hcut.
      destruct k, (find_cut cfg l), (find_cut cfg r); simpl in Hcut; congruence. }
    injection Hm as <-. apply Hnew.
  - destruct fin.
    + injection Hcut as <-. injection Hm as <-. apply Hnew.
    + simpl in Hcut. destruct (find_cut cfg c) as [p'|] eqn:Hc; [|done].
      injection Hcut as <-. simpl in *. destruct Hl as [Ha Hl].
      apply Rel_aggregate; [done|]. by apply (IH p' m).
  - destruct g.
    + injection Hcut as <-. injection Hm as <-. apply Hnew.
    + simpl in Hcut. destruct (find_cut cfg c) as [p'|] eqn:Hc; [|done].
      injection Hcut as <-. simpl in *. apply Rel_sort. by apply (IH p' m).
  - destruct (classify cfg (SetBuild inner pol h c)) eqn:Hcl.
    + rewrite (find_cut_classify _ _ Hcl) in Hcut.
      injection Hcut as <-. injection Hm as <-. apply Hnew.
    + simpl in Hcut, Hcl. rewrite Hcl in Hcut.
      destruct (find_cut cfg c) as [p'|] eqn:Hc; [|done].
      injection Hcut as <-. simpl in *.
      apply andb_true_iff in Hs as [Hi Hs].
      rewrite (eval_source_tables inner Hi site_c site_1) by done.
      by apply (IH p' m).
  - simpl in Hcut. destruct p as [|j p'].
    + injection Hm as <-. apply Hnew.
    + apply join_cuts_lookup in Hcut as [_ Hj]. rewrite Nat.sub_0_r in Hj.
      change (List.map (find_cut cfg) cs) with (find_cut cfg <$> cs) in Hj.
      rewrite list_lookup_fmap in Hj.
      destruct (cs !! j) as [c|] eqn:Hc; [|done]. injection Hj as Hj.
      simpl in Hm |- *. rewrite Hc in Hm |- *. simpl.
      apply (union_context sets cs j c); [done|done|].
      apply (proj1 (Forall_lookup _ _) IH j c Hc p' m); try done.
      * by apply (source_plan_children (Union cs) j c).
      * by apply (lawful_aggregates_children (Union cs) j c).
Qed.
End cut_context.

Section guarantee.
Context (cfg : Config) (tbl : Table → list Row).
Context (parts : nat → Table → list Row).
Hypothesis Hparts : partitioned (remote_replicas cfg) tbl parts.

(** Above the cut, rows that are equal stay equal. *)
Lemma cut_context_eq n p m new r :
  source_plan n = true → lawful_aggregates n →
  find_cut cfg n = Some p → node_at n p = Some m →
  (∀ sets, eval (coordinator_site tbl parts r) sets new
           = eval (single_site tbl) sets m) →
  ∀ sets, eval (coordinator_site tbl parts r) sets (replace_at n p new)
          = eval (single_site tbl) sets n.
Proof using Type.
  apply (cut_context cfg (coordinator_site tbl parts r) (single_site tbl));
    try done; by intros; subst.
Qed.

(** Above the cut, the same rows in any order stay the same rows. *)
Lemma cut_context_Permutation n p m new r :
  source_plan n = true → lawful_aggregates n →
  find_cut cfg n = Some p → node_at n p = Some m →
  (∀ sets, eval (coordinator_site tbl parts r) sets new
           ≡ₚ eval (single_site tbl) sets m) →
  ∀ sets, eval (coordinator_site tbl parts r) sets (replace_at n p new)
          ≡ₚ eval (single_site tbl) sets n.
Proof using Type.
  apply (cut_context cfg (coordinator_site tbl parts r) (single_site tbl));
    try done.
  - by intros ???? ->.
  - by intros ??? ->.
  - intros g a fin l l' Hlaw Hl. unfold aggregate_rows.
    by rewrite (group_states_Permutation a Hlaw g (agg_state a) l l' Hl).
  - intros k l l' Hl. by rewrite !sort_rows_Permutation.
  - by intros ???? -> ->.
Qed.
End guarantee.

(** * The splitter's contract and the reference output *)

(** ** The reference plans

    The plan texts parse to trees that print back to the same texts, so
    the trees hold what the reference file shows. *)

Lemma parse_render setting q :
  Reference.render 0 (Reference.explain setting q)
  = Reference.explain_text setting q.
Proof. by destruct setting, q. Qed.

(** Every Union of the reference plans is a fan-out, and each fan-out has
    one remote-read branch. *)
Lemma reference_unions_are_fan_outs setting q :
  Reference.count_step "Union" (Reference.explain setting q)
  = Reference.fan_outs (Reference.explain setting q)
  ∧ Reference.count_step "ReadFromRemoteParallelReplicas"
      (Reference.explain setting q)
    = Reference.fan_outs (Reference.explain setting q).
Proof. by destruct setting, q. Qed.

(** The query with only INNER/LEFT joins: the fan-out is the root of the
    plan, with both Joins inside it. *)
Lemma reference_simple_joins setting :
  Reference.above_fan_outs (Reference.explain setting Reference.SimpleJoins)
  = [[]]
  ∧ Reference.count_inside "Join"
      (Reference.explain setting Reference.SimpleJoins) = 2%nat.
Proof. by destruct setting. Qed.

(** GROUP BY: MergingAggregated stands directly above the fan-out, and
    Aggregating runs inside it. *)
Lemma reference_group_by setting :
  Reference.above_fan_outs (Reference.explain setting Reference.GroupBy)
  = [["Expression"; "Sorting"; "Expression"; "MergingAggregated"]]
  ∧ Reference.count_inside "Aggregating"
      (Reference.explain setting Reference.GroupBy) = 1%nat
  ∧ Reference.count_outside "Aggregating"
      (Reference.explain setting Reference.GroupBy) = 0%nat.
Proof. by destruct setting. Qed.

(** ORDER BY: a Sorting step stands directly above the fan-out and another
    one runs inside it. *)
Lemma reference_order_by setting :
  Reference.above_fan_outs (Reference.explain setting Reference.CteJoins)
  = [["Expression"; "Sorting"]]
  ∧ Reference.count_inside "Sorting"
      (Reference.explain setting Reference.CteJoins) = 1%nat.
Proof. by destruct setting. Qed.

(** IN subquery allowed: CreatingSets runs inside the fan-out. *)
Lemma reference_in_allowed setting :
  Reference.count_inside "CreatingSets"
    (Reference.explain setting Reference.InAllowed) = 1%nat
  ∧ Reference.count_outside "CreatingSets"
      (Reference.explain setting Reference.InAllowed) = 0%nat.
Proof. by destruct setting. Qed.

(** ** C1: execution of the split plan against single-node evaluation *)

(** The example partitionings are disjoint and exhaustive. *)
Lemma example_partitioned : partitioned 1 example_tables example_parts.
Proof.
  intros t. simpl. rewrite app_nil_r. apply reflexive_eq, take_drop.
Qed.

Lemma tied_partitioned : partitioned 1 tied_tables tied_parts.
Proof.
  intros t. simpl. rewrite app_nil_r, (comm (++)).
  apply reflexive_eq, take_drop.
Qed.




(** The guarantee at the other kinds of cut, over the example tables: a
    SetBuild that the configuration denies, whose set is built on the
    coordinator and reaches both replicas, and a global Sort below a
    filter. *)
Lemma guaranteed_examples :
  guaranteed in_denied root_set_build
  ∧ (∃ sp, split root_set_build in_denied = inr sp
           ∧ cut_reason sp = CoordinatorNode
           ∧ run_split example_tables example_parts sp = [[4]; [2]])
  ∧ run_single example_tables root_set_build = [[4]; [2]]
  ∧ guaranteed two_replicas filtered_scenario_b.
Proof.
  split; [by repeat split|].
  split; [eexists; split; [done|]; split; [done|by vm_compute]|].
  split; [by vm_compute|]. by repeat split.
Qed.

(** ** C2: plans without a merge-requiring operator *)

Lemma simple_plan_no_cut cfg n : simple_plan n = true → find_cut cfg n = None.
Proof.
  induction n as [t d s|q c IH|f c IH|k ks l r IHl IHr|g a fin c IH|a fin c IH
                 |k g c IH|k c IH|inner pol h c _ IH|cs IH|c IH|i]
    using PlanNode_nested_ind; simpl; try done.
  - intros H. by rewrite IH.
  - intros H. by rewrite IH.
  - destruct k; try done; intros [Hl Hr]%andb_true_iff; simpl;
      by rewrite IHl, IHr.
Qed.

(** C2: for a plan built from Scan, Filter, Expression and Inner or Left
    Join only, the CutPoint is the root, the cut reason is
    [FullyDistributable], the replica subplan is the whole plan with its
    partition slots assigned, and the coordinator subplan is the fan-out
    alone (one local execution of the replica subplan and one remote-read
    leaf per remote replica) with no operator above it. *)
Theorem simple_plan_fully_distributable cfg n :
  simple_plan n = true →
  cut_point cfg n = []
  ∧ split n cfg
    = inr {| replica_subplan := assign_slots n;
             coordinator_subplan :=
               FanOutReplica
                 (Union (assign_slots n
                           :: (RemoteRead <$> seq 1 (remote_replicas cfg))));
             cut_reason := FullyDistributable |}.
Proof.
  intros Hs. unfold cut_point, split.
  by rewrite (simple_plan_no_cut cfg n Hs).
Qed.

(** C2 at Scenario A with one remote replica. *)
Lemma simple_plan_fully_distributable_scenario_a :
  simple_plan scenario_a = true
  ∧ cut_point two_replicas scenario_a = []
  ∧ split scenario_a two_replicas
    = inr {| replica_subplan := assign_slots scenario_a;
             coordinator_subplan :=
               FanOutReplica
                 (Union [assign_slots scenario_a; RemoteRead 1]);
             cut_reason := FullyDistributable |}.
Proof.
  split; [reflexivity|].
  apply (simple_plan_fully_distributable two_replicas scenario_a).
  reflexivity.
Defined.

(** ** C3: a finalized Aggregate at the root *)

Lemma merge_states_comm fns m1 m2 :
  agg_lawful fns → merge_states fns m1 m2 = merge_states fns m2 m1.
Proof.
  intros [_ Hcomm]. apply map_eq. intros k. unfold merge_states.
  rewrite !lookup_union_with.
  destruct (m1 !! k), (m2 !! k); simpl; by rewrite ?(Hcomm r).
Qed.

Lemma merge_states_assoc fns m1 m2 m3 :
  agg_lawful fns →
  merge_states fns m1 (merge_states fns m2 m3)
  = merge_states fns (merge_states fns m1 m2) m3.
Proof.
  intros [Hassoc _]. apply map_eq. intros k. unfold merge_states.
  rewrite !lookup_union_with.
  destruct (m1 !! k), (m2 !! k), (m3 !! k); simpl; by rewrite ?Hassoc.
Qed.

(** C3: a plan whose root is a finalized Aggregate is split into a partial
    Aggregate ([finalized = false]) that heads the replica subplan and a
    MergeAggregate ([finalized = true]) directly above the fan-out.  When
    the combine step of the aggregate functions is associative and
    commutative, merging the partial rows of the partitions yields the rows
    of the Aggregate over all their rows, however the rows are partitioned;
    combining per-group states is then itself commutative and associative. *)
Theorem aggregate_root_split cfg g a c parts rows :
  agg_lawful a → rows ≡ₚ concat parts →
  cut_point cfg (Aggregate g a true c) = []
  ∧ split (Aggregate g a true c) cfg
    = inr {| replica_subplan := Aggregate g a false (assign_slots c);
             coordinator_subplan :=
               MergeAggregate a true
                 (FanOutReplica
                    (Union (Aggregate g a false (assign_slots c)
                              :: (RemoteRead <$> seq 1 (remote_replicas cfg)))));
             cut_reason := AggregateSplit |}
  ∧ merge_aggregate_rows a true (concat (aggregate_rows g a false <$> parts))
    = aggregate_rows g a true rows
  ∧ (∀ m1 m2, merge_states a m1 m2 = merge_states a m2 m1)
  ∧ (∀ m1 m2 m3, merge_states a m1 (merge_states a m2 m3)
                 = merge_states a (merge_states a m1 m2) m3).
Proof.
  intros Hlaw Hrows. split; [done|]. split; [done|].
  split; [by apply merge_aggregate_partitions|].
  split; intros; [by apply merge_states_comm|by apply merge_states_assoc].
Qed.

Lemma sum_first_column_lawful : agg_lawful sum_first_column.
Proof. split; intros; simpl; f_equal; lia. Qed.

(** C3 at a GROUP BY with [sum] over Scenario A, and at four rows held by
    two partitions. *)
Lemma aggregate_root_split_sum :
  agg_lawful sum_first_column
  ∧ [[3]; [1]; [2]; [4]] ≡ₚ concat [[[1]; [2]]; [[3]; [4]]]
  ∧ split grouped_scenario two_replicas
    = inr {| replica_subplan :=
               Aggregate (λ r, hd 0 r `mod` 2) sum_first_column false
                 (assign_slots scenario_a);
             coordinator_subplan :=
               MergeAggregate sum_first_column true
                 (FanOutReplica
                    (Union [Aggregate (λ r, hd 0 r `mod` 2) sum_first_column
                              false (assign_slots scenario_a);
                            RemoteRead 1]));
             cut_reason := AggregateSplit |}
  ∧ merge_aggregate_rows sum_first_column true
      (concat (aggregate_rows (λ r, hd 0 r `mod` 2) sum_first_column false
                 <$> [[[1]; [2]]; [[3]; [4]]]))
    = aggregate_rows (λ r, hd 0 r `mod` 2) sum_first_column true
        [[3]; [1]; [2]; [4]].
Proof.
  assert ([[3]; [1]; [2]; [4]] ≡ₚ concat [[[1]; [2]]; [[3]; [4]]]) as Hperm.
  { simpl. by rewrite (Permutation_swap [1] [3]), (Permutation_swap [2] [3]). }
  split; [apply sum_first_column_lawful|]. split; [done|].
  destruct (aggregate_root_split two_replicas (λ r, hd 0 r `mod` 2)
              sum_first_column scenario_a [[[1]; [2]]; [[3]; [4]]]
              [[3]; [1]; [2]; [4]] sum_first_column_lawful Hperm)
    as (_ & Hsplit & Hrows & _).
  split; [exact Hsplit|exact Hrows].
Defined.

(** ** C4: a global Sort at the CutPoint *)

Lemma cut_point_find_cut cfg n p m :
  cut_point cfg n = p → node_at n p = Some m → classify cfg m = true →
  find_cut cfg n = Some p.
Proof.
  unfold cut_point. intros Hp Hm Hcl.
  destruct (find_cut cfg n) as [q|] eqn:Hq; simpl in Hp; [by subst|].
  subst p. simpl in Hm. injection Hm as ->.
  by rewrite (find_cut_classify cfg m Hcl) in Hq.
Qed.

Lemma sorted_injective_key k l1 l2 :
  Inj (=) (=) k → Sorted (by_key k) l1 → Sorted (by_key k) l2 → l1 ≡ₚ l2 →
  l1 = l2.
Proof.
  intros Hinj H1 H2 Hp.
  assert (AntiSymm (=) (by_key k)) as Hanti.
  { intros a b Hab Hba. apply Hinj. unfold by_key in *. lia. }
  by apply (Sorted_unique (by_key k)).
Qed.

(** Replacing the subtree at [p] puts the new subtree at [p] and leaves
    every subtree beside the way to [p] as it is. *)
Lemma children_set_child n i c x :
  children n !! i = Some c → children (set_child n i x) !! i = Some x.
Proof.
  destruct n; simpl; try done; intros Hc;
    try (by destruct i).
  - by destruct i as [|[|i]].
  - rewrite list_lookup_insert_eq; [done|]. by apply lookup_lt_Some in Hc.
Qed.

Lemma children_set_child_ne n i j x :
  i ≠ j → children (set_child n i x) !! j = children n !! j.
Proof.
  intros Hij. destruct n; simpl; try done;
    try (by destruct i, j).
  - by destruct i as [|[|i]], j as [|[|j]].
  - by apply list_lookup_insert_ne.
Qed.

Lemma node_at_replace_at n p m new :
  node_at n p = Some m → node_at (replace_at n p new) p = Some new.
Proof.
  revert n. induction p as [|i p IH]; intros n; simpl; [done|].
  destruct (children n !! i) as [c|] eqn:Hc; [|done]. intros Hm.
  rewrite (children_set_child n i c _ Hc). by apply IH.
Qed.

Lemma node_at_replace_at_beside n p q new :
  ¬ p `prefix_of` q → ¬ q `prefix_of` p →
  node_at (replace_at n p new) q = node_at n q.
Proof.
  revert n q. induction p as [|i p IH]; intros n q Hpq Hqp.
  - destruct Hpq. apply prefix_nil.
  - destruct q as [|j q]; [destruct Hqp; apply prefix_nil|]. simpl.
    destruct (children n !! i) as [c|] eqn:Hc; [|done].
    destruct (decide (i = j)) as [<-|Hij].
    + rewrite (children_set_child n i c _ Hc), Hc. apply IH.
      * intros Hp. apply Hpq. by apply prefix_cons.
      * intros Hq. apply Hqp. by apply prefix_cons.
    + by rewrite (children_set_child_ne n i j _ Hij).
Qed.

Lemma same_step_set_child n i x : same_step n (set_child n i x).
Proof.
  destruct n; simpl; try done; try (by destruct i).
  - by destruct i as [|[|i]].
  - by rewrite length_insert.
Qed.

(** The steps on the way to [p] stay the steps they are. *)
Lemma replace_at_same_step n p new q :
  q `prefix_of` p → q ≠ p → is_Some (node_at n p) →
  ∃ a b, node_at n q = Some a
         ∧ node_at (replace_at n p new) q = Some b
         ∧ same_step a b.
Proof.
  revert n p. induction q as [|j q IH]; intros n p Hpre Hne Hp.
  - destruct p as [|i p]; [done|]. simpl in *.
    destruct (children n !! i) as [c|] eqn:Hc; [|by destruct Hp].
    exists n, (set_child n i (replace_at c p new)).
    split; [done|]. split; [done|]. apply same_step_set_child.
  - destruct p as [|i p]; [by apply prefix_nil_not in Hpre|].
    pose proof (prefix_cons_inv_1 _ _ _ _ Hpre) as ->.
    apply prefix_cons_inv_2 in Hpre. simpl in *.
    destruct (children n !! i) as [c|] eqn:Hc; [|by destruct Hp].
    rewrite (children_set_child n i c _ Hc).
    apply IH; [done|congruence|done].
Qed.




(** ** C5: Right and Full Joins *)

(** C5, as stated, fails on the suite.  The query RIGHT JOIN in sub3
    spells a right join and a left join, and its plan has two Join steps,
    both inside the one fan-out, which is the root of the plan: the Right
    Join is not the CutPoint, and it is part of what every replica runs. *)
Lemma right_join_runs_inside_the_fan_out :
  Reference.AnyRightJoin ∈ Reference.query_joins Reference.RightJoinSub3
  ∧ Reference.count_step "Join"
      (Reference.explain false Reference.RightJoinSub3) = 2%nat
  ∧ Reference.count_inside "Join"
      (Reference.explain false Reference.RightJoinSub3) = 2%nat
  ∧ Reference.above_fan_outs
      (Reference.explain false Reference.RightJoinSub3) = [[]].
Proof. split; [by left|]. by repeat split. Qed.

(** C5, amended: in the plans of the queries that spell a right join, under
    both settings, every join of the query is a Join step of the plan and
    every Join step, the Right Join included, runs inside the one fan-out.
    No fan-out lies below a Join; the fan-out is the root of the plan
    (RIGHT JOIN in sub3) or stands directly below the Expression and
    Sorting steps of the coordinator (RIGHT JOIN in sub5, whose explained
    query ends in ORDER BY). *)
Theorem right_join_inside_the_fan_out setting q :
  Reference.AnyRightJoin ∈ Reference.query_joins q →
  Reference.count_step "Join" (Reference.explain setting q)
  = length (Reference.query_joins q)
  ∧ Reference.fan_outs (Reference.explain setting q) = 1%nat
  ∧ Reference.count_inside "Join" (Reference.explain setting q)
    = Reference.count_step "Join" (Reference.explain setting q)
  ∧ Reference.count_outside "Join" (Reference.explain setting q) = 0%nat
  ∧ Forall (λ up, "Join" ∉ up)
      (Reference.above_fan_outs (Reference.explain setting q))
  ∧ Reference.above_fan_outs (Reference.explain setting q)
    = match q with
      | Reference.RightJoinSub5 => [["Expression"; "Sorting"]]
      | _ => [[]]
      end.
Proof.
  intros Hq.
  destruct q;
    try (repeat (apply elem_of_cons in Hq as [Hq|Hq]; [discriminate|]);
         by apply elem_of_nil in Hq);
    destruct setting; repeat split; try reflexivity;
    by apply (bool_decide_unpack _).
Qed.

(** C5, amended, at the query RIGHT JOIN in sub3. *)
Lemma right_join_inside_the_fan_out_sub3 :
  Reference.AnyRightJoin ∈ Reference.query_joins Reference.RightJoinSub3
  ∧ Reference.count_inside "Join"
      (Reference.explain false Reference.RightJoinSub3)
    = Reference.count_step "Join"
        (Reference.explain false Reference.RightJoinSub3)
  ∧ Reference.above_fan_outs
      (Reference.explain false Reference.RightJoinSub3) = [[]].
Proof.
  split; [by left|].
  destruct (right_join_inside_the_fan_out false Reference.RightJoinSub3
              ltac:(by left)) as (_ & _ & Hin & _ & _ & Habove).
  split; [exact Hin|exact Habove].
Defined.

(** ** C6: the CutPoint and the fan-out boundaries *)

(** C6, as stated, fails on the suite: the plan of the query ORDER BY in
    sub1 has three fan-out boundaries, each below a Join that runs on the
    coordinator, two of them below both Joins. *)
Lemma three_fan_outs_below_joins :
  Reference.fan_outs (Reference.explain false Reference.OrderBySub1) = 3%nat
  ∧ Reference.count_outside "Join"
      (Reference.explain false Reference.OrderBySub1) = 2%nat
  ∧ Reference.above_fan_outs (Reference.explain false Reference.OrderBySub1)
    = [["Expression"; "Sorting"; "Expression"; "Expression"; "Join";
        "Expression"; "Expression"; "Join"];
       ["Expression"; "Sorting"; "Expression"; "Expression"; "Join";
        "Expression"; "Expression"; "Join"];
       ["Expression"; "Sorting"; "Expression"; "Expression"; "Join"]].
Proof. by repeat split. Qed.

(** C6, amended: the plans of the suite have no single CutPoint.  Under
    both settings a plan has one fan-out boundary exactly when no Join runs
    on the coordinator; the boundary then is the root of the plan or stands
    below Expression, Sorting and MergingAggregated steps only.  The plans
    of the queries with ORDER BY in a subquery and of the query run with
    IN-subqueries denied have two or three boundaries, each below a Join of
    the coordinator. *)
Theorem fan_out_boundaries setting q :
  Reference.fan_outs (Reference.explain setting q)
  = match q with
    | Reference.OrderBySub1 => 3%nat
    | Reference.OrderBySub3 | Reference.InDenied => 2%nat
    | _ => 1%nat
    end
  ∧ length (Reference.above_fan_outs (Reference.explain setting q))
    = Reference.fan_outs (Reference.explain setting q)
  ∧ (Reference.fan_outs (Reference.explain setting q) = 1%nat
     ↔ Reference.count_outside "Join" (Reference.explain setting q) = 0%nat)
  ∧ (Reference.fan_outs (Reference.explain setting q) = 1%nat →
     Forall (Forall (λ step,
                step ∈ ["Expression"; "Sorting"; "MergingAggregated"]))
       (Reference.above_fan_outs (Reference.explain setting q)))
  ∧ ((1 < Reference.fan_outs (Reference.explain setting q))%nat →
     Forall (λ up, "Join" ∈ up)
       (Reference.above_fan_outs (Reference.explain setting q))).
Proof.
  destruct setting, q; (split; [reflexivity|]); (split; [reflexivity|]);
    (split; [by vm_compute|]);
    (split; intros Hn; vm_compute in Hn; try lia; try discriminate;
     by apply (bool_decide_unpack _)).
Qed.

(** ** C7: SetBuild over a distributable inner plan *)

(** C7: for a SetBuild whose inner plan contains a distributable scan,
    [decide_set_policy] never returns [Once]: it returns [PerReplica]
    whenever the configuration allows a policy at all.  In the replica
    subplan the node is tagged [PerReplica] and its inner plan is left
    without partition slots, so that every replica evaluates it over the
    whole tables, as a single node does. *)
Theorem distributable_inner_per_replica cfg inner pol h c :
  contains_distributable inner = true →
  decide_set_policy (SetBuild inner pol h c) cfg ≠ Some Once
  ∧ (allow_in_with_subquery cfg = true →
     decide_set_policy (SetBuild inner pol h c) cfg = Some PerReplica)
  ∧ assign_slots (SetBuild inner pol h c)
    = SetBuild inner PerReplica h (assign_slots c)
  ∧ (source_plan inner = true →
     ∀ tbl parts i sets,
       eval (replica_site tbl parts i) sets inner
       = eval (single_site tbl) sets inner).
Proof.
  intros Hd. unfold decide_set_policy, resolved_policy. simpl.
  unfold resolved_policy. rewrite Hd. repeat split.
  - by destruct (allow_in_with_subquery cfg).
  - by intros ->.
  - intros Hs tbl parts i sets. by apply eval_source_tables.
Qed.

(** C7 at an IN subquery over a distributable table, with IN-subqueries
    allowed and denied. *)
Lemma distributable_inner_per_replica_root :
  contains_distributable (Scan "T2" true false) = true
  ∧ decide_set_policy root_set_build two_replicas = Some PerReplica
  ∧ decide_set_policy root_set_build in_denied ≠ Some Once
  ∧ replica_subplan
      <$> (match split root_set_build two_replicas with
           | inr sp => Some sp
           | inl _ => None
           end)
    = Some (SetBuild (Scan "T2" true false) PerReplica 0%nat
              (Filter (InSet (hd 0) 0%nat) (Scan "T1" true true))).
Proof.
  split; [reflexivity|].
  destruct (distributable_inner_per_replica two_replicas
              (Scan "T2" true false) Once 0%nat
              (Filter (InSet (hd 0) 0%nat) (Scan "T1" true false)) eq_refl)
    as (_ & Hallow & _ & _).
  split; [exact (Hallow eq_refl)|].
  destruct (distributable_inner_per_replica in_denied
              (Scan "T2" true false) Once 0%nat
              (Filter (InSet (hd 0) 0%nat) (Scan "T1" true false)) eq_refl)
    as (Hnever & _).
  split; [exact Hnever|reflexivity].
Defined.

(** ** C8: IN-subqueries denied *)



(** ** C10: the setting parallel_replicas_prefer_local_join *)

(** C10: every query of the suite returns the same rows in the same order
    with [parallel_replicas_prefer_local_join = 0] and with [= 1]. *)
Theorem prefer_local_join_same_rows q :
  Reference.rows false q = Reference.rows true q.
Proof. by destruct q. Qed.

(** * The expected output as a whole

    What the reference file shows across all its queries and both values of
    [parallel_replicas_prefer_local_join]. *)

Section expected_output.
Import Reference.

(** ** The plan texts are trees *)

Lemma Explain_nested_ind (P : Explain → Prop) :
  (∀ n ts, Forall P ts → P (Op n ts)) → ∀ t, P t.
Proof.
  intros H. fix IH 1. intros [n ts]. apply H.
  induction ts as [|c cs IHcs]; constructor; [apply IH|exact IHcs].
Qed.

Lemma indent_of_spaces d n :
  plain_name n = true → indent_of (spaces d +:+ n) = (2 * d)%nat.
Proof.
  intros Hn. induction d as [|d IH]; simpl.
  - destruct n as [|[[] [] [] [] [] [] [] []] n]; simpl in *; congruence.
  - rewrite IH. lia.
Qed.

Lemma step_name_spaces d n :
  plain_name n = true → step_name (spaces d +:+ n) = n.
Proof.
  intros Hn. induction d as [|d IH]; simpl; [|done].
  destruct n as [|[[] [] [] [] [] [] [] []] n]; simpl in *; congruence.
Qed.

(** A step takes as inputs exactly the subtrees printed one level deeper
    below it. *)
Lemma inputs_of_inputs d ts below :
  follows (2 * d) below →
  inputs_of (2 * d) (((λ c, ((2 * S d)%nat, c)) <$> ts) ++ below)
  = (ts, below).
Proof.
  intros Hb. induction ts as [|c cs IH].
  - destruct below as [|[d' t] rest]; simpl in *; [done|].
    by rewrite (proj2 (Nat.ltb_ge _ _) Hb).
  - rewrite fmap_cons. cbn [app inputs_of].
    rewrite IH. by rewrite (proj2 (Nat.ltb_lt (2 * d) (2 * S d)) ltac:(lia)).
Qed.

Lemma attach_render t : ∀ d below,
  well_named t = true → follows (2 * d) below →
  foldr attach below (render d t) = ((2 * d)%nat, t) :: below.
Proof.
  induction t as [n ts IH] using Explain_nested_ind. intros d below Hw Hb.
  simpl in Hw. apply andb_prop in Hw as [Hn Hts].
  cbn [render foldr].
  assert (foldr attach below (foldr (λ c acc, render (S d) c ++ acc) [] ts)
          = ((λ c, ((2 * S d)%nat, c)) <$> ts) ++ below) as ->.
  { clear Hn. induction ts as [|c cs IHcs]; [done|].
    apply Forall_cons in IH as [IHc IH].
    cbn [forallb] in Hts. apply andb_prop in Hts as [Hc Hcs].
    cbn [foldr]. rewrite foldr_app, (IHcs IH Hcs), fmap_cons.
    apply (IHc (S d)); [done|].
    destruct cs; simpl; [|lia].
    destruct below as [|[??] ?]; simpl in *; lia. }
  unfold attach. rewrite (indent_of_spaces _ _ Hn), (step_name_spaces _ _ Hn).
  by rewrite inputs_of_inputs.
Qed.

(** The text of a plan reads back as the plan. *)
Lemma parse_render_tree t : well_named t = true → parse (render 0 t) = [t].
Proof.
  intros Hw. unfold parse. by rewrite (attach_render t 0 [] Hw I).
Qed.

(** Each plan text of the reference is the text of exactly one plan: the
    tree read from it prints as the very lines of the file, and no other
    tree does. *)
Theorem explain_text_one_tree setting q :
  well_named (explain setting q) = true
  ∧ render 0 (explain setting q) = explain_text setting q
  ∧ ∀ t, well_named t = true → render 0 t = explain_text setting q →
         t = explain setting q.
Proof.
  split; [by destruct setting, q|]. split; [by destruct setting, q|].
  intros t Hw Ht. unfold explain. by rewrite <- Ht, (parse_render_tree t Hw).
Qed.

(** In every plan of the reference each step has the inputs of its kind:
    a read has none, Join, Union and CreatingSets have two, every other
    step has one. *)
Theorem plans_well_formed setting q :
  well_formed (explain setting q) = true.
Proof. by destruct setting, q. Qed.

(** ** The setting parallel_replicas_prefer_local_join and the plans *)

Lemma count_step_local_join n t :
  n ≠ "ReadFromMemoryStorage" → n ≠ "Expression" → n ≠ "ReadFromMergeTree" →
  count_step n (local_join t) = count_step n t.
Proof.
  intros H1 H2 H3. induction t as [m ts IH] using Explain_nested_ind.
  destruct ts as [|c cs].
  - simpl. case_bool_decide as Hm; [|done]. subst m. simpl.
    by rewrite !bool_decide_eq_false_2 by congruence.
  - cbn [local_join count_step]. f_equal.
    induction IH as [|c' cs' Hc _ IHcs]; [done|].
    cbn [List.map foldr]. by rewrite Hc, IHcs.
Qed.

Lemma is_fan_out_leaf n : is_fan_out (Op n []) = false.
Proof. unfold is_fan_out. by repeat case_match. Qed.

Lemma is_fan_out_local_join t : is_fan_out (local_join t) = is_fan_out t.
Proof.
  destruct t as [n [|l [|r [|??]]]].
  - simpl. case_bool_decide as Hn; [by subst n|done].
  - done.
  - cbn [local_join List.map]. unfold is_fan_out.
    by rewrite !count_step_local_join.
  - done.
Qed.

(** Reading the joined tables locally moves no fan-out. *)
Lemma fan_outs_local_join t : fan_outs (local_join t) = fan_outs t.
Proof.
  induction t as [m ts IH] using Explain_nested_ind.
  destruct ts as [|c cs].
  - cbn [local_join]. case_bool_decide; [|done].
    cbn [fan_outs foldr]. by rewrite !is_fan_out_leaf.
  - pose proof (is_fan_out_local_join (Op m (c :: cs))) as Hf.
    cbn [local_join] in Hf |- *. cbn [fan_outs]. rewrite Hf. clear Hf.
    f_equal. induction IH as [|c' cs' Hc _ IHcs]; [done|].
    cbn [List.map foldr]. by rewrite Hc, IHcs.
Qed.

Lemma above_fan_outs_local_join t :
  above_fan_outs (local_join t) = above_fan_outs t.
Proof.
  induction t as [m ts IH] using Explain_nested_ind.
  destruct ts as [|c cs].
  - cbn [local_join]. case_bool_decide; [|done].
    cbn [above_fan_outs foldr]. by rewrite !is_fan_out_leaf.
  - pose proof (is_fan_out_local_join (Op m (c :: cs))) as Hf.
    cbn [local_join] in Hf |- *. cbn [above_fan_outs]. rewrite Hf. clear Hf.
    destruct (is_fan_out (Op m (c :: cs))); [done|]. f_equal.
    induction IH as [|c' cs' Hc _ IHcs]; [done|].
    cbn [List.map foldr]. by rewrite Hc, IHcs.
Qed.

(** The plan of every query with [parallel_replicas_prefer_local_join = 1]
    is its plan with [= 0] in which every read from memory storage has
    become an Expression over a read of the table; nothing else differs.
    So no plan of the second half reads from memory storage, and the
    fan-outs are as many and below the same steps as in the first half. *)
Theorem prefer_local_join_plans q :
  explain true q = local_join (explain false q)
  ∧ count_step "ReadFromMemoryStorage" (explain true q) = 0%nat
  ∧ fan_outs (explain true q) = fan_outs (explain false q)
  ∧ above_fan_outs (explain true q) = above_fan_outs (explain false q).
Proof.
  assert (explain true q = local_join (explain false q)) as Hq
    by by destruct q.
  split; [exact Hq|]. split; [by destruct q|].
  rewrite Hq.
  split; [apply fan_outs_local_join|apply above_fan_outs_local_join].
Qed.

(** ** The fan-outs of the plans *)

Lemma length_unions t : ∀ parent,
  length (unions parent t) = count_step "Union" t.
Proof.
  induction t as [n ts IH] using Explain_nested_ind. intros parent.
  cbn [unions count_step]. rewrite length_app. f_equal; [by case_bool_decide|].
  induction IH as [|c cs Hc _ IHcs]; [done|].
  cbn [foldr]. by rewrite length_app, Hc, IHcs.
Qed.

Ltac plan_cases setting q :=
  destruct setting, q;
  repeat match goal with
         | |- context [unions ?p ?t] =>
             let l := eval vm_compute in (unions p t) in
             change (unions p t) with l
         end.

(** Every Union of every plan of the reference has two inputs: a plan that
    reads from a MergeTree table and holds no Union and no remote read, and
    the remote branch, an Expression over ReadFromRemoteParallelReplicas.
    A remote read stands nowhere else. *)
Theorem every_union_is_a_fan_out setting q :
  Forall (λ u, ∃ local, u.2 = [local; remote_branch]
               ∧ count_step "Union" local = 0%nat
               ∧ count_step "ReadFromRemoteParallelReplicas" local = 0%nat
               ∧ (1 ≤ count_step "ReadFromMergeTree" local)%nat)
    (unions EmptyString (explain setting q))
  ∧ count_step "ReadFromRemoteParallelReplicas" (explain setting q)
    = length (unions EmptyString (explain setting q))
  ∧ fan_outs (explain setting q)
    = length (unions EmptyString (explain setting q)).
Proof.
  rewrite length_unions. split; [|by destruct setting, q].
  plan_cases setting q;
    repeat (constructor; [eexists; split; [reflexivity|]; vm_compute; lia|]);
    constructor.
Qed.

(** What the coordinator finishes directly above a fan-out, the replicas
    prepare at the top of the fan-out's local plan, and nothing else of the
    kind: below a Sorting step the local plan is an Expression over a
    Sorting, below MergingAggregated an Expression over Aggregating, with
    neither step further down; below any other step, and at the root, the
    local plan neither sorts nor aggregates.  Aggregating and
    MergingAggregated come in pairs. *)
Theorem merge_stage_mirrored setting q :
  Forall (λ u, ∃ local remote, u.2 = [local; remote]
      ∧ match first_stage u.1 with
        | Some stage =>
            ∃ rest, local = Op "Expression" [Op stage [rest]]
                    ∧ count_step "Sorting" rest = 0%nat
                    ∧ count_step "Aggregating" rest = 0%nat
        | None => count_step "Sorting" local = 0%nat
                  ∧ count_step "Aggregating" local = 0%nat
        end)
    (unions EmptyString (explain setting q))
  ∧ count_step "Aggregating" (explain setting q)
    = count_step "MergingAggregated" (explain setting q).
Proof.
  split; [|by destruct setting, q].
  plan_cases setting q;
    repeat (constructor;
            [do 2 eexists; split; [reflexivity|]; cbn [first_stage fst];
             first [ by vm_compute
                   | eexists; split; [reflexivity|]; by vm_compute ]|]);
    constructor.
Qed.

(** ORDER BY and GROUP BY on top of the two joins leave the replicas' join
    plan as it is: the query with ORDER BY wraps it in a Sorting on the
    replicas and one on the coordinator, the query with GROUP BY in
    Aggregating on the replicas and MergingAggregated on the coordinator. *)
Theorem order_by_and_group_by_wrap_the_join setting :
  ∃ join_plan,
    explain setting SimpleJoins = Op "Union" [join_plan; remote_branch]
    ∧ explain setting CteJoins
      = Op "Expression" [Op "Sorting" [Op "Union"
          [Op "Expression" [Op "Sorting" [join_plan]]; remote_branch]]]
    ∧ explain setting GroupBy
      = Op "Expression" [Op "Sorting" [Op "Expression"
          [Op "MergingAggregated" [Op "Union"
             [Op "Expression" [Op "Aggregating" [join_plan]];
              remote_branch]]]]]
    ∧ count_step "Join" join_plan = 2%nat.
Proof. destruct setting; eexists; repeat split; reflexivity. Qed.

(** The coordinator reads no table itself: every read from a MergeTree
    table and from memory storage stands inside a fan-out.  The one
    exception is the query run with IN-subqueries denied, where the table
    filtered by IN and the numbers of the subquery are read outside every
    fan-out. *)
Theorem coordinator_reads setting q :
  count_outside "ReadFromMemoryStorage" (explain setting q) = 0%nat
  ∧ count_outside "ReadFromMergeTree" (explain setting q)
    = match q with InDenied => 1%nat | _ => 0%nat end
  ∧ count_outside "ReadFromSystemNumbers" (explain setting q)
    = match q with InDenied => 1%nat | _ => 0%nat end.
Proof. by destruct setting, q. Qed.

(** ** The result rows across the queries *)

(** The seven queries that spell the same two joins return the same rows,
    whether their plan has one, two or three fan-outs and whether the set of
    the IN subquery is built inside a fan-out or on the coordinator. *)
Theorem same_join_same_rows setting q :
  same_join q = true → rows setting q = rows setting SimpleJoins.
Proof. by destruct setting, q. Qed.

Lemma same_join_same_rows_in_denied :
  same_join InDenied = true
  ∧ rows false InDenied = rows false SimpleJoins.
Proof.
  split; [reflexivity|].
  apply (same_join_same_rows false InDenied). reflexivity.
Defined.

(** The query with the RIGHT JOIN in sub5 returns the rows of the first
    query with the columns in the order of its own select list. *)
Theorem right_join_sub5_columns setting :
  rows setting RightJoinSub5
  = right_join_columns <$> rows setting SimpleJoins.
Proof. by destruct setting. Qed.

(** The two rows of the GROUP BY query are the column sums of the rows of
    the first query with even and with odd [x], each followed by its key,
    in the order of the keys. *)
Theorem group_by_sums setting :
  rows setting GroupBy = group_by_parity (rows setting SimpleJoins).
Proof. destruct setting; by vm_compute. Qed.

(** Every result comes in the order its query asks for, strictly increasing
    in the ORDER BY column, and every row has as many columns as the select
    list. *)
Theorem rows_in_order setting q :
  Sorted Z.lt ((λ r, nth (order_column q) r 0) <$> rows setting q)
  ∧ Forall (λ r, length r = width q) (rows setting q).
Proof.
  split; destruct setting, q; vm_compute; repeat first [done | constructor].
Qed.

End expected_output.
